(** * The jenkins-operator entry point (prow/cmd/jenkins-operator/main.go)

    A shallow embedding of [main], [loadToken], [loadCerts], [serve] and
    [gather].  Start-up is a program in a small monad that records effects
    and can end the process ([logrus]'s Fatal); the steady state (the two
    [for { select { ... } }] loops and the HTTP server) is a labelled
    transition system whose labels are the choices made outside the source:
    the passing of time, the firing of the runtime's tickers, the delivery
    of operating-system signals, which ready case a [select] takes, and the
    return of the calls into the controller and the HTTP listener. *)

From Stdlib Require Import ZArith List String Bool Lia.
From Stdlib Require Import Strings.Byte.
Import ListNotations.

Local Open Scope string_scope.
Local Open Scope list_scope.
Local Open Scope Z_scope.

(** ** Go values *)

(** A Go [error] value, by its message. *)
Definition error := string.

(** [time.Duration] and instants of the monotonic clock: nanoseconds. *)
Definition Duration := Z.
Definition Time := Z.

Module time.
Definition Nanosecond : Duration := 1.
Definition Microsecond : Duration := 1000 * Nanosecond.
Definition Millisecond : Duration := 1000 * Microsecond.
Definition Second : Duration := 1000 * Millisecond.
End time.

(** [s != ""] *)
Definition nonempty (s : string) : bool := negb (s =? "")%string.
Arguments nonempty : simpl never.

(** ** [bytes.TrimSpace]

    The Go standard library's function: it removes the leading and the
    trailing white space of a UTF-8 encoded byte slice, white space being
    [unicode.IsSpace].  A rune is white space when it is one of U+0009 to
    U+000D, U+0020, U+0085, U+00A0, U+1680, U+2000 to U+200A, U+2028,
    U+2029, U+202F, U+205F, U+3000; a byte that does not start a valid
    encoding decodes to U+FFFD, which is not.  On the UTF-8 encodings: *)

Definition isSpace1 (b : byte) : bool :=
  match b with
  | x09 | x0a | x0b | x0c | x0d | x20 => true
  | _ => false
  end.

(** U+0085 = C2 85, U+00A0 = C2 A0 *)
Definition isSpace2 (b1 b2 : byte) : bool :=
  match b1, b2 with
  | xc2, x85 | xc2, xa0 => true
  | _, _ => false
  end.

(** U+1680 = E1 9A 80, U+2000..U+200A = E2 80 80..8A, U+2028 = E2 80 A8,
    U+2029 = E2 80 A9, U+202F = E2 80 AF, U+205F = E2 81 9F,
    U+3000 = E3 80 80 *)
Definition isSpace3 (b1 b2 b3 : byte) : bool :=
  match b1, b2, b3 with
  | xe1, x9a, x80 => true
  | xe2, x80, (x80 | x81 | x82 | x83 | x84 | x85 | x86 | x87 | x88 | x89 | x8a) => true
  | xe2, x80, (xa8 | xa9 | xaf) => true
  | xe2, x81, x9f => true
  | xe3, x80, x80 => true
  | _, _, _ => false
  end.

Arguments isSpace1 : simpl never.
Arguments isSpace2 : simpl never.
Arguments isSpace3 : simpl never.

Section TrimRunes.

(** Which sequences of one, two and three bytes are a rune to trim. *)
Variable is1 : byte -> bool.
Variable is2 : byte -> byte -> bool.
Variable is3 : byte -> byte -> byte -> bool.

(** The slice begins with such a rune. *)
Definition leadsWith (s : list byte) : bool :=
  match s with
  | [] => false
  | b1 :: t1 =>
      is1 b1 ||
      match t1 with
      | [] => false
      | b2 :: t2 =>
          is2 b1 b2 ||
          match t2 with
          | [] => false
          | b3 :: _ => is3 b1 b2 b3
          end
      end
  end.

(** The runes are removed from the front, one after the other, until the
    slice begins with something else. *)
Fixpoint trimLeft (s : list byte) : list byte :=
  match s with
  | [] => []
  | b1 :: t1 =>
      if is1 b1 then trimLeft t1
      else match t1 with
           | [] => s
           | b2 :: t2 =>
               if is2 b1 b2 then trimLeft t2
               else match t2 with
                    | [] => s
                    | b3 :: t3 =>
                        if is3 b1 b2 b3 then trimLeft t3 else s
                    end
           end
  end.

(** A sequence of such runes. *)
Inductive Runes : list byte -> Prop :=
| Runes_nil : Runes []
| Runes_1 b1 s : is1 b1 = true -> Runes s -> Runes (b1 :: s)
| Runes_2 b1 b2 s : is2 b1 b2 = true -> Runes s -> Runes (b1 :: b2 :: s)
| Runes_3 b1 b2 b3 s :
    is3 b1 b2 b3 = true -> Runes s -> Runes (b1 :: b2 :: b3 :: s).

End TrimRunes.

(** [bytes.TrimLeftFunc(s, unicode.IsSpace)]: runes are decoded from the
    front. *)
Definition TrimLeftSpace (s : list byte) : list byte :=
  trimLeft isSpace1 isSpace2 isSpace3 s.

(** [bytes.TrimRightFunc(s, unicode.IsSpace)]: [utf8.DecodeLastRune] walks
    back from the end to the byte that starts the last rune, so this is the
    same on the reversed slice with the encodings reversed. *)
Definition TrimRightSpace (s : list byte) : list byte :=
  rev (trimLeft isSpace1 (fun b1 b2 => isSpace2 b2 b1)
         (fun b1 b2 b3 => isSpace3 b3 b2 b1) (rev s)).

(** The slice begins, or ends, with a white-space rune. *)
Definition leadingSpace (s : list byte) : bool :=
  leadsWith isSpace1 isSpace2 isSpace3 s.
Definition trailingSpace (s : list byte) : bool :=
  leadsWith isSpace1 (fun b1 b2 => isSpace2 b2 b1)
    (fun b1 b2 b3 => isSpace3 b3 b2 b1) (rev s).

(** A sequence of white-space runes. *)
Definition Spaces : list byte -> Prop := Runes isSpace1 isSpace2 isSpace3.

(** [t] is [raw] without the white space at its two ends. *)
Definition stripped (raw t : list byte) : Prop :=
  exists pre post,
    raw = pre ++ t ++ post /\ Spaces pre /\ Spaces post /\
    leadingSpace t = false /\ trailingSpace t = false.

Module bytes.
(** [TrimFunc(s, unicode.IsSpace)], that is
    [TrimRightFunc(TrimLeftFunc(s, f), f)]. *)
Definition TrimSpace (s : list byte) : list byte :=
  TrimRightSpace (TrimLeftSpace s).
End bytes.

(** [string(b)] for a byte slice [b]. *)
Definition string_of_bytes (b : list byte) : string := string_of_list_byte b.

(** ** The packages [main] is wired from

    Clients and controller are built by packages outside this file; a value
    of these types is the record of what its constructor was given. *)

(** Modelled from the spec: package [prow/config] is not in this file; of
    the configuration snapshot, the two fields [main] reads. *)
Module config.
Record PushGateway := { Endpoint : string; Interval : Duration }.
Record Config := { ProwJobNamespace : string; PushGateway_ : PushGateway }.
End config.

(** Modelled from the spec: package [prow/kube] is not in this file; the
    client, by the namespace it was made for. *)
Module kube.
Record Client := { namespace : string }.
End kube.

(** [crypto/tls] and [crypto/x509] of the Go standard library, as far as
    [loadCerts] uses them. *)
Module tls.
(** A parsed certificate and key pair, by the files it was loaded from. *)
Record Certificate := { certPEM : string; keyPEM : string }.
(** [x509.CertPool]: the PEM blocks appended to it. *)
Definition CertPool := list (list byte).
Record Config := {
  Certificates : list Certificate;
  RootCAs : option CertPool;
  NameToCertificateBuilt : bool
}.
Definition BuildNameToCertificate (c : Config) : Config :=
  {| Certificates := Certificates c; RootCAs := RootCAs c;
     NameToCertificateBuilt := true |}.
Definition withRootCAs (pool : CertPool) (c : Config) : Config :=
  {| Certificates := Certificates c; RootCAs := Some pool;
     NameToCertificateBuilt := NameToCertificateBuilt c |}.
End tls.

Module x509.
Definition NewCertPool : tls.CertPool := [].
Definition AppendCertsFromPEM (pool : tls.CertPool) (pem : list byte) : tls.CertPool :=
  pool ++ [pem].
End x509.

(** Modelled from the spec: package [prow/jenkins] is not in this file; the
    authentication settings with the fields [main] fills, and the client by
    the arguments of its constructor (logger and metrics left out). *)
Module jenkins.
Record BasicAuthConfig := { User : string; Token : string }.
Record BearerTokenAuthConfig := { BearerToken_Token : string }.
Record AuthConfig := {
  Basic : option BasicAuthConfig;
  BearerToken : option BearerTokenAuthConfig
}.
Record Client := {
  url : string;
  tlsConfig : option tls.Config;
  authConfig : AuthConfig
}.
Definition NewClient (u : string) (t : option tls.Config) (ac : AuthConfig) : Client :=
  {| url := u; tlsConfig := t; authConfig := ac |}.
End jenkins.

(** Modelled from the spec: package [prow/github] is not in this file; the
    client by the arguments of its constructor and whether it is the
    dry-run one. *)
Module github.
Record Client := { dry : bool; token : string; endpoint : string }.
Definition NewDryRunClient (tok ep : string) : Client :=
  {| dry := true; token := tok; endpoint := ep |}.
Definition NewClient (tok ep : string) : Client :=
  {| dry := false; token := tok; endpoint := ep |}.
End github.

(** Modelled from the spec: [jenkins.Controller] is not in this file; the
    controller by the arguments of [jenkins.NewController] (logger and
    config agent left out).  Its [Sync] and [SyncMetrics] are calls to the
    outside: what they return is a label of the transition system below. *)
Record Controller := {
  kc : kube.Client;
  jc : jenkins.Client;
  ghc : github.Client;
  labelSelector : string
}.

(** The command-line flags, after [flag.Parse]. *)
Record Flags := {
  configPath : string;
  selector : string;
  jenkinsURL : string;
  jenkinsUserName : string;
  jenkinsTokenFile : string;
  jenkinsBearerTokenFile : string;
  certFile : string;
  keyFile : string;
  caCertFile : string;
  githubEndpoint : string;
  githubTokenFile : string;
  dryRun : bool
}.

(** The defaults of the [flag] declarations; [kube.EmptySelector], declared
    outside this file, is taken to be the empty string. *)
Definition defaultFlags : Flags :=
  {| configPath := "/etc/config/config";
     selector := "";
     jenkinsURL := "http://jenkins-proxy";
     jenkinsUserName := "jenkins-trigger";
     jenkinsTokenFile := "";
     jenkinsBearerTokenFile := "";
     certFile := "";
     keyFile := "";
     caCertFile := "";
     githubEndpoint := "https://api.github.com";
     githubTokenFile := "/etc/github/oauth";
     dryRun := true |}.

(** What [main] finds outside itself: the answers of the calls that read
    files, the cluster and the configuration.  An [error] result is [nil]
    ([None]) or an error; [configAgent.Config()] answers with one snapshot
    (the reloading of the configuration in the background is left out). *)
Record World := {
  labels_Parse : string -> option error;
  configAgent_Start : string -> option error;
  configAgent_Config : config.Config;
  kube_NewClientInCluster : string -> option error;
  ioutil_ReadFile : string -> error + list byte;
  tls_LoadX509KeyPair : string -> string -> option error;
  url_Parse : string -> option error
}.

(** ** Effects *)

Inductive Level := DebugLevel | InfoLevel | ErrorLevel | FatalLevel.

(** A [logrus] entry: level, message, the [WithError] field and a duration
    field ([WithField] with its key). *)
Record LogEntry := {
  level : Level;
  message : string;
  withError : option error;
  withField : option (string * Duration)
}.

Definition entry (l : Level) (m : string) : LogEntry :=
  {| level := l; message := m; withError := None; withField := None |}.
Definition entryErr (l : Level) (e : error) (m : string) : LogEntry :=
  {| level := l; message := m; withError := Some e; withField := None |}.
Definition entryField (l : Level) (k : string) (d : Duration) (m : string) : LogEntry :=
  {| level := l; message := m; withError := None; withField := Some (k, d) |}.

(** The goroutines [main] starts. *)
Inductive Goroutine :=
| PushMetrics (component endpoint : string) (interval : Duration)
| serve (jc : jenkins.Client)
| gather (c : Controller).

Inductive Effect :=
| Log (e : LogEntry)
| ReadFile (file : string)
| LoadX509KeyPair (certFile keyFile : string)
| Go (g : Goroutine)
| CallSync
| CallSyncMetrics
| Observe (d : Duration)            (* metrics.ResyncPeriod.Observe *)
| Handle                            (* one HTTP request served *)
| Push (endpoint : string).         (* one push to the push gateway *)

Definition isGo (e : Effect) : bool :=
  match e with Go _ => true | _ => false end.
Definition isPushMetrics (e : Effect) : bool :=
  match e with Go (PushMetrics _ _ _) => true | _ => false end.
Definition isCall (e : Effect) : bool :=
  match e with CallSync | CallSyncMetrics => true | _ => false end.
Definition isHandle (e : Effect) : bool :=
  match e with Handle => true | _ => false end.
Definition isPush (e : Effect) : bool :=
  match e with Push _ => true | _ => false end.
Definition isLoadX509KeyPair (e : Effect) : bool :=
  match e with LoadX509KeyPair _ _ => true | _ => false end.

(** ** The start-up monad: effects so far, and either a value or the exit
    status of the process. *)

Inductive Outcome (A : Type) :=
| Continue (a : A)
| Exit (status : Z).
Arguments Continue {A} a.
Arguments Exit {A} status.

Definition IO (A : Type) : Type := list Effect * Outcome A.

Definition ret {A} (a : A) : IO A := ([], Continue a).

Definition bind {A B} (m : IO A) (k : A -> IO B) : IO B :=
  match m with
  | (es, Continue a) => let (es', r) := k a in (es ++ es', r)
  | (es, Exit st) => (es, Exit st)
  end.

Definition emit (e : Effect) : IO unit := ([e], Continue tt).

Notation "x <- m ;; k" := (bind m (fun x => k))
  (at level 61, m at next level, right associativity).
Notation "m ;;; k" := (bind m (fun _ => k))
  (at level 61, right associativity).

(** [logger.Fatal] and [Fatalf]: the entry is written, then [os.Exit(1)]. *)
Definition Fatal {A} (e : LogEntry) : IO A := ([Log e], Exit 1).

Definition effects {A} (m : IO A) : list Effect := fst m.
Definition outcome {A} (m : IO A) : Outcome A := snd m.

Section Startup.

Variable w : World.

(** [ioutil.ReadFile(file)], with the read recorded. *)
Definition ReadFile_ (file : string) : IO (error + list byte) :=
  emit (ReadFile file) ;;; ret (ioutil_ReadFile w file).

Definition loadToken (file : string) : IO (error + string) :=
  r <- ReadFile_ file ;;
  match r with
  | inl err => ret (inl err)
  | inr raw => ret (inr (string_of_bytes (bytes.TrimSpace raw)))
  end.

Definition loadCerts (certFile keyFile caCertFile : string)
  : IO (error + tls.Config) :=
  emit (LoadX509KeyPair certFile keyFile) ;;;
  match tls_LoadX509KeyPair w certFile keyFile with
  | Some err => ret (inl err)
  | None =>
      let cert := {| tls.certPEM := certFile; tls.keyPEM := keyFile |} in
      let tlsConfig :=
        {| tls.Certificates := [cert]; tls.RootCAs := None;
           tls.NameToCertificateBuilt := false |} in
      if nonempty caCertFile then
        r <- ReadFile_ caCertFile ;;
        match r with
        | inl err => ret (inl err)
        | inr caCert =>
            let caCertPool := x509.AppendCertsFromPEM x509.NewCertPool caCert in
            ret (inr (tls.BuildNameToCertificate (tls.withRootCAs caCertPool tlsConfig)))
        end
      else ret (inr (tls.BuildNameToCertificate tlsConfig))
  end.

(** [main] up to the [go] statements: everything before the loop. *)
Definition startup (fl : Flags) : IO Controller :=
  match labels_Parse w (selector fl) with
  | Some err => Fatal (entryErr FatalLevel err "Error parsing label selector.")
  | None => ret tt
  end ;;;
  match configAgent_Start w (configPath fl) with
  | Some err => Fatal (entryErr FatalLevel err "Error starting config agent.")
  | None => ret tt
  end ;;;
  kc <- match kube_NewClientInCluster w (config.ProwJobNamespace (configAgent_Config w)) with
        | Some err => Fatal (entryErr FatalLevel err "Error getting kube client.")
        | None => ret {| kube.namespace := config.ProwJobNamespace (configAgent_Config w) |}
        end ;;
  ac <- (if nonempty (jenkinsTokenFile fl) then
           r <- loadToken (jenkinsTokenFile fl) ;;
           match r with
           | inl err => Fatal (entryErr FatalLevel err "Could not read token file.")
           | inr token =>
               ret {| jenkins.Basic :=
                        Some {| jenkins.User := jenkinsUserName fl;
                                jenkins.Token := token |};
                      jenkins.BearerToken := None |}
           end
         else if nonempty (jenkinsBearerTokenFile fl) then
           r <- loadToken (jenkinsBearerTokenFile fl) ;;
           match r with
           | inl err => Fatal (entryErr FatalLevel err "Could not read bearer token file.")
           | inr token =>
               ret {| jenkins.Basic := None;
                      jenkins.BearerToken :=
                        Some {| jenkins.BearerToken_Token := token |} |}
           end
         else
           Fatal (entry FatalLevel
                    "An auth token for basic or bearer token auth must be supplied.")) ;;
  tlsConfig <- (if nonempty (certFile fl) && nonempty (keyFile fl) then
                  r <- loadCerts (certFile fl) (keyFile fl) (caCertFile fl) ;;
                  match r with
                  | inl err => Fatal (entryErr FatalLevel err "Could not read certificate files.")
                  | inr config => ret (Some config)
                  end
                else ret None) ;;
  let jc := jenkins.NewClient (jenkinsURL fl) tlsConfig ac in
  oauthSecretRaw <- (r <- ReadFile_ (githubTokenFile fl) ;;
                     match r with
                     | inl err => Fatal (entryErr FatalLevel err "Could not read Github oauth secret file.")
                     | inr raw => ret raw
                     end) ;;
  let oauthSecret := string_of_bytes (bytes.TrimSpace oauthSecretRaw) in
  match url_Parse w (githubEndpoint fl) with
  | Some err => Fatal (entryErr FatalLevel err "Must specify a valid --github-endpoint URL.")
  | None => ret tt
  end ;;;
  let ghc := if dryRun fl
             then github.NewDryRunClient oauthSecret (githubEndpoint fl)
             else github.NewClient oauthSecret (githubEndpoint fl) in
  let c := {| kc := kc; jc := jc; ghc := ghc; labelSelector := selector fl |} in
  let pushGateway := config.PushGateway_ (configAgent_Config w) in
  (if nonempty (config.Endpoint pushGateway) then
     emit (Go (PushMetrics "jenkins-operator" (config.Endpoint pushGateway)
                 (config.Interval pushGateway)))
   else ret tt) ;;;
  emit (Go (serve jc)) ;;;
  emit (Go (gather c)) ;;;
  ret c.

End Startup.

(** ** The steady state: two timer loops and the HTTP server *)

(** The signals [signal.Notify] is asked for; [os.Interrupt] is SIGINT.
    Other signals are not relayed to the channels and are left out. *)
Inductive Signal := SIGINT | SIGTERM.

Module os.
Definition Interrupt : Signal := SIGINT.
End os.

Definition Signal_eqb (a b : Signal) : bool :=
  match a, b with
  | SIGINT, SIGINT | SIGTERM, SIGTERM => true
  | _, _ => false
  end.

(** [signal.Notify(sig, os.Interrupt, syscall.SIGTERM)] *)
Definition notified (s : Signal) : bool :=
  existsb (Signal_eqb s) [os.Interrupt; SIGTERM].

(** [time.Tick(d)]: a ticker of period [d] and its channel, which buffers
    one tick; the runtime drops a tick the channel has no room for. *)
Record Ticker := { period : Duration; next_fire : Time; buffered : bool }.

Definition time_Tick (now : Time) (d : Duration) : Ticker :=
  {| period := d; next_fire := now + d; buffered := false |}.

Definition fire (t : Ticker) : Ticker :=
  {| period := period t; next_fire := next_fire t + period t; buffered := true |}.

Definition receive (t : Ticker) : Ticker :=
  {| period := period t; next_fire := next_fire t; buffered := false |}.

(** Where a loop is: not started, blocked in [select], inside the call of
    its iteration (with [start := time.Now()]), or returned. *)
Inductive Phase :=
| NotStarted
| AtSelect
| InCall (start : Time)
| Returned.

(** A loop: its ticker, its signal channel ([make(chan os.Signal, 1)]:
    [sig] says that a signal is buffered) and its phase. *)
Record Loop := { tick : Ticker; sig : bool; phase : Phase }.

Definition idle : Loop :=
  {| tick := {| period := 0; next_fire := 0; buffered := false |};
     sig := false; phase := NotStarted |}.

(** Lines 145-147 of [main], and 210-212 of [gather]. *)
Definition main_loop (now : Time) : Loop :=
  {| tick := time_Tick now (30 * time.Second); sig := false; phase := AtSelect |}.
Definition gather_loop (now : Time) : Loop :=
  {| tick := time_Tick now (30 * time.Second); sig := false; phase := AtSelect |}.

Definition started (lp : Loop) : bool :=
  match phase lp with NotStarted => false | _ => true end.

Definition setTick (t : Ticker) (lp : Loop) : Loop :=
  {| tick := t; sig := sig lp; phase := phase lp |}.
Definition setSig (b : bool) (lp : Loop) : Loop :=
  {| tick := tick lp; sig := b; phase := phase lp |}.
Definition setPhase (ph : Phase) (lp : Loop) : Loop :=
  {| tick := tick lp; sig := sig lp; phase := ph |}.

(** [http.ListenAndServe(":8080", nil)]: not started, binding the port, or
    accepting requests. *)
Inductive Server := Down | Binding (addr : string) | Listening (addr : string).

(** The two timer loops: the one of [main] and the one of [gather]. *)
Inductive LoopId := Reconcile | Gather.

(** The process: the clock, the two loops, the server, the push goroutine
    (by its endpoint, if it was started), the exit status once the process
    has ended, and what it has done so far, oldest first. *)
Record Proc := {
  clock : Time;
  mainLoop : Loop;
  gatherLoop : Loop;
  server : Server;
  pusher : option string;
  exited : option Z;
  trace : list Effect
}.

Definition loopOf (l : LoopId) (p : Proc) : Loop :=
  match l with Reconcile => mainLoop p | Gather => gatherLoop p end.

Definition setLoop (l : LoopId) (lp : Loop) (p : Proc) : Proc :=
  match l with
  | Reconcile =>
      {| clock := clock p; mainLoop := lp; gatherLoop := gatherLoop p;
         server := server p; pusher := pusher p; exited := exited p;
         trace := trace p |}
  | Gather =>
      {| clock := clock p; mainLoop := mainLoop p; gatherLoop := lp;
         server := server p; pusher := pusher p; exited := exited p;
         trace := trace p |}
  end.

Definition setClock (t : Time) (p : Proc) : Proc :=
  {| clock := t; mainLoop := mainLoop p; gatherLoop := gatherLoop p;
     server := server p; pusher := pusher p; exited := exited p;
     trace := trace p |}.

Definition setServer (s : Server) (p : Proc) : Proc :=
  {| clock := clock p; mainLoop := mainLoop p; gatherLoop := gatherLoop p;
     server := s; pusher := pusher p; exited := exited p;
     trace := trace p |}.

Definition emitP (es : list Effect) (p : Proc) : Proc :=
  {| clock := clock p; mainLoop := mainLoop p; gatherLoop := gatherLoop p;
     server := server p; pusher := pusher p; exited := exited p;
     trace := trace p ++ es |}.

(** The process ends: [os.Exit], or [main] returns.  A Go program ends when
    [main] returns, without waiting for its other goroutines. *)
Definition exitP (status : Z) (p : Proc) : Proc :=
  {| clock := clock p; mainLoop := mainLoop p; gatherLoop := gatherLoop p;
     server := server p; pusher := pusher p; exited := Some status;
     trace := trace p |}.

(** [serve]: the handlers are registered and [http.ListenAndServe] is
    called on the fixed address. *)
Definition serve_start : Server := Binding ":8080".

(** Modelled from the spec: the handler behind ["/"] and ["/metrics"]
    ([handleLog] and the Prometheus handler are not in this file); of a
    request only the fact that it was served is kept. *)
Definition handleRequest (p : Proc) : Proc := emitP [Handle] p.

(** Modelled from the spec: [m.PushMetrics] (package [prow/metrics], not in
    this file), a periodic push of the process's metrics to the configured
    push-gateway endpoint; of a push only its endpoint is kept. *)
Definition pushOnce (ep : string) (p : Proc) : Proc := emitP [Push ep] p.

(** The goroutines among the effects of start-up. *)
Definition servesIn (es : list Effect) : bool :=
  existsb (fun e => match e with Go (serve _) => true | _ => false end) es.
Definition gathersIn (es : list Effect) : bool :=
  existsb (fun e => match e with Go (gather _) => true | _ => false end) es.
Fixpoint pusherIn (es : list Effect) : option string :=
  match es with
  | [] => None
  | Go (PushMetrics _ ep _) :: _ => Some ep
  | _ :: es' => pusherIn es'
  end.

(** The process after start-up, at time [now]: exited if start-up was
    fatal, else with the goroutines it started and [main] at its loop.  The
    goroutines are taken to reach their first blocking point at [now] too,
    so both tickers are created at [now]. *)
Definition boot (w : World) (fl : Flags) (now : Time) : Proc :=
  match startup w fl with
  | (es, Exit status) =>
      {| clock := now; mainLoop := idle; gatherLoop := idle; server := Down;
         pusher := None; exited := Some status; trace := es |}
  | (es, Continue _) =>
      {| clock := now;
         mainLoop := main_loop now;
         gatherLoop := if gathersIn es then gather_loop now else idle;
         server := if servesIn es then serve_start else Down;
         pusher := pusherIn es;
         exited := None;
         trace := es |}
  end.

(** What happens next is chosen outside the source.  A [select] with
    several ready cases takes any one of them, so both [SelectTick] and
    [SelectSig] are possible then; time passes only up to the next tick
    that is due, and a ticker fires when its tick is due. *)
Inductive Action :=
| Elapse (dt : Duration)            (* time passes *)
| TimerFires (l : LoopId)           (* the ticker of [l] sends on its channel *)
| Deliver (s : Signal)              (* the process receives a signal *)
| SelectTick (l : LoopId)           (* [select] takes [case <-tick] *)
| SelectSig (l : LoopId)            (* [select] takes [case <-sig] *)
| SyncReturns (err : option error)  (* [c.Sync()] returns *)
| SyncMetricsReturns                (* [c.SyncMetrics()] returns *)
| Bound                             (* the listener has its port *)
| Request                           (* an HTTP request is served *)
| ListenAndServeReturns (err : error)
| PushTick.                         (* the push goroutine pushes *)

Definition notFiringBefore (lp : Loop) (t : Time) : bool :=
  negb (started lp) || (t <=? next_fire (tick lp)).

Definition notify (lp : Loop) : Loop :=
  if started lp then setSig true lp else lp.

Definition call (l : LoopId) : Effect :=
  match l with Reconcile => CallSync | Gather => CallSyncMetrics end.

(** The body of [case <-sig] of each loop. *)
Definition onSig (l : LoopId) (p : Proc) : Proc :=
  match l with
  | Reconcile =>
      exitP 0 (emitP [Log (entry InfoLevel "Jenkins operator is shutting down...")] p)
  | Gather =>
      emitP [Log (entry DebugLevel "Jenkins operator gatherer is shutting down...")] p
  end.

(** What [main]'s iteration does once [c.Sync()] has returned [err]. *)
Definition afterSync (err : option error) (duration : Duration) : list Effect :=
  match err with
  | Some e => [Log (entryErr ErrorLevel e "Error syncing.")]
  | None => []
  end ++
  [Log (entryField InfoLevel "duration" duration "Synced"); Observe duration].

Definition afterSyncMetrics (duration : Duration) : list Effect :=
  [Log (entryField DebugLevel "metrics-duration" duration "Metrics synced")].

Definition step (a : Action) (p : Proc) : option Proc :=
  match exited p with
  | Some _ => None
  | None =>
      match a with
      | Elapse dt =>
          if (0 <=? dt) && notFiringBefore (mainLoop p) (clock p + dt)
             && notFiringBefore (gatherLoop p) (clock p + dt)
          then Some (setClock (clock p + dt) p) else None
      | TimerFires l =>
          let lp := loopOf l p in
          if started lp && (next_fire (tick lp) =? clock p)
          then Some (setLoop l (setTick (fire (tick lp)) lp) p) else None
      | Deliver s =>
          if notified s
          then Some (setLoop Gather (notify (gatherLoop p))
                       (setLoop Reconcile (notify (mainLoop p)) p))
          else None
      | SelectTick l =>
          let lp := loopOf l p in
          match phase lp with
          | AtSelect =>
              if buffered (tick lp)
              then Some (emitP [call l]
                           (setLoop l (setPhase (InCall (clock p))
                                         (setTick (receive (tick lp)) lp)) p))
              else None
          | _ => None
          end
      | SelectSig l =>
          let lp := loopOf l p in
          match phase lp with
          | AtSelect =>
              if sig lp
              then Some (onSig l (setLoop l (setPhase Returned (setSig false lp)) p))
              else None
          | _ => None
          end
      | SyncReturns err =>
          match phase (mainLoop p) with
          | InCall start =>
              Some (emitP (afterSync err (clock p - start))
                      (setLoop Reconcile (setPhase AtSelect (mainLoop p)) p))
          | _ => None
          end
      | SyncMetricsReturns =>
          match phase (gatherLoop p) with
          | InCall start =>
              Some (emitP (afterSyncMetrics (clock p - start))
                      (setLoop Gather (setPhase AtSelect (gatherLoop p)) p))
          | _ => None
          end
      | Bound =>
          match server p with
          | Binding addr => Some (setServer (Listening addr) p)
          | _ => None
          end
      | Request =>
          match server p with
          | Listening _ => Some (handleRequest p)
          | _ => None
          end
      | ListenAndServeReturns err =>
          match server p with
          | Down => None
          | _ => Some (exitP 1 (emitP [Log (entryErr FatalLevel err "ListenAndServe returned.")] p))
          end
      | PushTick =>
          match pusher p with
          | Some ep => Some (pushOnce ep p)
          | None => None
          end
      end
  end.

Fixpoint run (acts : list Action) (p : Proc) : option Proc :=
  match acts with
  | [] => Some p
  | a :: rest =>
      match step a p with
      | Some p' => run rest p'
      | None => None
      end
  end.

(** [p'] is reached from [p]. *)
Definition reaches (p p' : Proc) : Prop := exists acts, run acts p = Some p'.

(** The return of the call of loop [l]. *)
Definition returnOf (l : LoopId) (err : option error) : Action :=
  match l with Reconcile => SyncReturns err | Gather => SyncMetricsReturns end.

Definition count (f : Effect -> bool) (es : list Effect) : nat :=
  List.length (filter f es).

Definition isObserve (e : Effect) : bool :=
  match e with Observe _ => true | _ => false end.

(** The calls of the iteration of loop [l] among the effects. *)
Definition isCallOf (l : LoopId) (e : Effect) : bool :=
  match l, e with
  | Reconcile, CallSync | Gather, CallSyncMetrics => true
  | _, _ => false
  end.

Definition isSyncReturns (a : Action) : bool :=
  match a with SyncReturns _ => true | _ => false end.

Definition isListenAndServeReturns (a : Action) : bool :=
  match a with ListenAndServeReturns _ => true | _ => false end.

(** The actions after which the process is gone: [main] returns from its
    loop, or [serve] reaches its [Fatal]. *)
Definition exits (a : Action) : bool :=
  match a with
  | SelectSig Reconcile | ListenAndServeReturns _ => true
  | _ => false
  end.

(** The shutdown condition of a loop: a signal is buffered on its channel,
    or the loop has received it and returned. *)
Definition shutdownSet (l : LoopId) (p : Proc) : Prop :=
  sig (loopOf l p) = true \/ phase (loopOf l p) = Returned.

(** The iteration in flight of loop [l], if any, can run to completion. *)
Definition iterationCompletes (l : LoopId) (p : Proc) : Prop :=
  forall start, phase (loopOf l p) = InCall start ->
  exists p', reaches p p' /\ phase (loopOf l p') = AtSelect.

(** With a tick and a signal both ready at its [select], loop [l] does not
    start an iteration. *)
Definition prefersTermination (l : LoopId) (p : Proc) : Prop :=
  phase (loopOf l p) = AtSelect ->
  buffered (tick (loopOf l p)) = true ->
  sig (loopOf l p) = true ->
  step (SelectTick l) p = None.

(** The ticker of a loop has period thirty seconds and fires next a whole
    number of periods after [t0]. *)
Definition cadence (t0 : Time) (lp : Loop) : Prop :=
  period (tick lp) = 30 * time.Second /\
  exists k, 1 <= k /\ next_fire (tick lp) = t0 + k * (30 * time.Second).

(** ** A world and flags to run on *)

Definition exampleWorld : World :=
  {| labels_Parse := fun _ => None;
     configAgent_Start := fun _ => None;
     configAgent_Config :=
       {| config.ProwJobNamespace := "default";
          config.PushGateway_ := {| config.Endpoint := ""; config.Interval := 60 * time.Second |} |};
     kube_NewClientInCluster := fun _ => None;
     ioutil_ReadFile := fun f =>
       if (f =? "/etc/jenkins/token")%string then inr (list_byte_of_string " abc123
")
       else if (f =? "/etc/github/oauth")%string then inr (list_byte_of_string "	gh-secret  ")
       else if (f =? "/etc/jenkins/bearer")%string then inr (list_byte_of_string "bearer-xyz")
       else if (f =? "/etc/tls/ca.pem")%string then inr (list_byte_of_string "CA")
       else inl "no such file or directory";
     tls_LoadX509KeyPair := fun _ _ => None;
     url_Parse := fun _ => None |}.

Definition setTokenFile (f : string) (fl : Flags) : Flags :=
  {| configPath := configPath fl; selector := selector fl;
     jenkinsURL := jenkinsURL fl; jenkinsUserName := jenkinsUserName fl;
     jenkinsTokenFile := f;
     jenkinsBearerTokenFile := jenkinsBearerTokenFile fl;
     certFile := certFile fl; keyFile := keyFile fl; caCertFile := caCertFile fl;
     githubEndpoint := githubEndpoint fl; githubTokenFile := githubTokenFile fl;
     dryRun := dryRun fl |}.

Definition setBearerTokenFile (f : string) (fl : Flags) : Flags :=
  {| configPath := configPath fl; selector := selector fl;
     jenkinsURL := jenkinsURL fl; jenkinsUserName := jenkinsUserName fl;
     jenkinsTokenFile := jenkinsTokenFile fl;
     jenkinsBearerTokenFile := f;
     certFile := certFile fl; keyFile := keyFile fl; caCertFile := caCertFile fl;
     githubEndpoint := githubEndpoint fl; githubTokenFile := githubTokenFile fl;
     dryRun := dryRun fl |}.

Definition setCertFiles (cert key ca : string) (fl : Flags) : Flags :=
  {| configPath := configPath fl; selector := selector fl;
     jenkinsURL := jenkinsURL fl; jenkinsUserName := jenkinsUserName fl;
     jenkinsTokenFile := jenkinsTokenFile fl;
     jenkinsBearerTokenFile := jenkinsBearerTokenFile fl;
     certFile := cert; keyFile := key; caCertFile := ca;
     githubEndpoint := githubEndpoint fl; githubTokenFile := githubTokenFile fl;
     dryRun := dryRun fl |}.

Definition exampleFlags : Flags := setTokenFile "/etc/jenkins/token" defaultFlags.

Definition bothTokenFlags : Flags :=
  setBearerTokenFile "/etc/jenkins/bearer" exampleFlags.

Definition tlsFlags : Flags :=
  setCertFiles "/etc/tls/cert.pem" "/etc/tls/key.pem" "/etc/tls/ca.pem" exampleFlags.

Definition pushWorld : World :=
  {| labels_Parse := labels_Parse exampleWorld;
     configAgent_Start := configAgent_Start exampleWorld;
     configAgent_Config :=
       {| config.ProwJobNamespace := "default";
          config.PushGateway_ :=
            {| config.Endpoint := "http://pushgateway";
               config.Interval := 60 * time.Second |} |};
     kube_NewClientInCluster := kube_NewClientInCluster exampleWorld;
     ioutil_ReadFile := ioutil_ReadFile exampleWorld;
     tls_LoadX509KeyPair := tls_LoadX509KeyPair exampleWorld;
     url_Parse := url_Parse exampleWorld |}.

Definition p0 : Proc := boot exampleWorld exampleFlags 0.

(** Runs of [p0].  Thirty seconds after start-up both tickers fire. *)
Definition firstTick : list Action :=
  [Elapse (30 * time.Second); TimerFires Reconcile; TimerFires Gather].

Definition after (acts : list Action) (p : Proc) : Proc :=
  match run acts p with Some p' => p' | None => p end.

(** [main] is inside [c.Sync()], five seconds into it. *)
Definition inSync : Proc :=
  after (firstTick ++ [SelectTick Reconcile; Elapse (5 * time.Second)]) p0.

(** Three ticks; [Sync] fails on the first two. *)
Definition threeTicks : list Action :=
  firstTick ++
  [SelectTick Reconcile; Elapse (10 * time.Millisecond);
   SyncReturns (Some "jenkins unreachable")] ++
  [Elapse (30 * time.Second - 10 * time.Millisecond);
   TimerFires Reconcile; TimerFires Gather;
   SelectTick Reconcile; Elapse (10 * time.Millisecond);
   SyncReturns (Some "jenkins unreachable")] ++
  [Elapse (30 * time.Second - 10 * time.Millisecond);
   TimerFires Reconcile; TimerFires Gather;
   SelectTick Reconcile; Elapse (10 * time.Millisecond);
   SyncReturns None].

(** Both loops have a tick buffered and the signal arrives. *)
Definition tickAndSignal : Proc := after (firstTick ++ [Deliver SIGTERM]) p0.

(** [gather] is inside [c.SyncMetrics()] when the signal arrives, and [main]
    takes it. *)
Definition cutShort : Proc :=
  after (firstTick ++ [SelectTick Gather; Deliver SIGTERM; SelectSig Reconcile]) p0.

(** ** Further vocabulary for the properties *)

(** The token file [main] reads: the basic one when its flag is set, the
    bearer one otherwise. *)
Definition selectedTokenFile (fl : Flags) : string :=
  if nonempty (jenkinsTokenFile fl) then jenkinsTokenFile fl
  else jenkinsBearerTokenFile fl.

Definition Level_eqb (a b : Level) : bool :=
  match a, b with
  | DebugLevel, DebugLevel | InfoLevel, InfoLevel
  | ErrorLevel, ErrorLevel | FatalLevel, FatalLevel => true
  | _, _ => false
  end.

Definition isLog (e : Effect) : bool :=
  match e with Log _ => true | _ => false end.

(** A log entry of level [lv]. *)
Definition isLevel (lv : Level) (e : Effect) : bool :=
  match e with Log le => Level_eqb (level le) lv | _ => false end.

(** The entry that ends an iteration of [gather]. *)
Definition isMetricsSynced (e : Effect) : bool :=
  match e with
  | Log le => (message le =? "Metrics synced")%string
  | _ => false
  end.

(** One when loop [l] is inside the call of its iteration. *)
Definition inFlight (l : LoopId) (p : Proc) : nat :=
  match phase (loopOf l p) with InCall _ => 1 | _ => 0 end.

(** One when the ticker channel of loop [l] holds a tick. *)
Definition pending (l : LoopId) (p : Proc) : nat :=
  if buffered (tick (loopOf l p)) then 1 else 0.

Definition isTimerFires (l : LoopId) (a : Action) : bool :=
  match a, l with
  | TimerFires Reconcile, Reconcile | TimerFires Gather, Gather => true
  | _, _ => false
  end.

(** [c.Sync()] returns an error. *)
Definition isFailedSync (a : Action) : bool :=
  match a with SyncReturns (Some _) => true | _ => false end.

(** The durations an effect carries, observed or logged, are not negative. *)
Definition nonNegative (e : Effect) : bool :=
  match e with
  | Observe d => 0 <=? d
  | Log le => match withField le with Some (_, d) => 0 <=? d | None => true end
  | _ => true
  end.

Definition missingTokenFlags : Flags := setTokenFile "/etc/jenkins/missing" defaultFlags.

(** A world whose basic token file holds white space only. *)
Definition blankTokenWorld : World :=
  {| labels_Parse := labels_Parse exampleWorld;
     configAgent_Start := configAgent_Start exampleWorld;
     configAgent_Config := configAgent_Config exampleWorld;
     kube_NewClientInCluster := kube_NewClientInCluster exampleWorld;
     ioutil_ReadFile := fun f =>
       if (f =? "/etc/jenkins/token")%string then inr [x20; x0a]
       else ioutil_ReadFile exampleWorld f;
     tls_LoadX509KeyPair := tls_LoadX509KeyPair exampleWorld;
     url_Parse := url_Parse exampleWorld |}.

(** Until its ticker has fired for the first time a loop has no tick and
    has called nothing, and the clock has not passed the instant the ticker
    is due. *)
Definition beforeFirstTick (t0 : Time) (l : LoopId) (p : Proc) : Prop :=
  started (loopOf l p) = true /\
  cadence t0 (loopOf l p) /\
  t0 <= clock p <= next_fire (tick (loopOf l p)) /\
  (next_fire (tick (loopOf l p)) = t0 + 30 * time.Second ->
   buffered (tick (loopOf l p)) = false /\
   count (isCallOf l) (trace p) = 0%nat) /\
  (next_fire (tick (loopOf l p)) <> t0 + 30 * time.Second ->
   t0 + 30 * time.Second <= clock p).

(** * Properties *)

Lemma nonempty_true (s : string) : nonempty s = true <-> s <> "".
Proof.
  unfold nonempty. rewrite negb_true_iff. apply String.eqb_neq.
Qed.

Lemma nonempty_false (s : string) : nonempty s = false <-> s = "".
Proof.
  unfold nonempty. rewrite negb_false_iff. apply String.eqb_eq.
Qed.

Example TrimSpace_token :
  string_of_bytes (bytes.TrimSpace (list_byte_of_string "  s3cr3t
")) = "s3cr3t".
Proof. reflexivity. Qed.

(** * Start-up *)

(** Case analysis on the innermost scrutinee of a [match] of the goal. *)
Ltac break_match :=
  match goal with
  | |- context [match ?x with _ => _ end] =>
      lazymatch x with
      | context [match _ with _ => _ end] => fail
      | _ => destruct x eqn:?
      end
  end.

(** All the ways through [startup], for a goal that mentions it. *)
Ltac startup_cases :=
  unfold startup, loadToken, loadCerts, ReadFile_, Fatal, emit, ret, bind;
  simpl;
  repeat (break_match; simpl; try (intros; discriminate)).

Lemma startup_exit_status w fl es st :
  startup w fl = (es, Exit st) -> st = 1.
Proof.
  startup_cases; intros H; inversion H; reflexivity.
Qed.

Lemma step_exited a p st : exited p = Some st -> step a p = None.
Proof.
  intros H. unfold step. rewrite H. reflexivity.
Qed.

Lemma run_exited acts p p' st :
  exited p = Some st -> run acts p = Some p' -> acts = [] /\ p' = p.
Proof.
  intros He Hr. destruct acts as [|a rest]; simpl in Hr.
  - split; congruence.
  - rewrite (step_exited a p st He) in Hr. discriminate.
Qed.

Lemma startup_no_auth w fl :
  jenkinsTokenFile fl = "" -> jenkinsBearerTokenFile fl = "" ->
  exists e, startup w fl = ([Log e], Exit 1) /\ level e = FatalLevel.
Proof.
  intros H1 H2. unfold startup. rewrite H1, H2.
  unfold Fatal, ret, bind. simpl.
  repeat (break_match; simpl in *; try discriminate; try congruence);
    eexists; (split; [reflexivity | reflexivity]).
Qed.

(** C5. With neither [--jenkins-token-file] nor [--jenkins-bearer-token-file]
    given, start-up ends the process with status 1 before any [go] statement:
    no goroutine is started, the process is dead from its first state, so no
    action is ever possible in it: no HTTP request is served and no call of
    [Sync] or [SyncMetrics] is made. *)
Theorem no_auth_aborts_before_loops w fl now :
  jenkinsTokenFile fl = "" -> jenkinsBearerTokenFile fl = "" ->
  outcome (startup w fl) = Exit 1 /\
  existsb isGo (effects (startup w fl)) = false /\
  exited (boot w fl now) = Some 1 /\
  server (boot w fl now) = Down /\
  phase (mainLoop (boot w fl now)) = NotStarted /\
  phase (gatherLoop (boot w fl now)) = NotStarted /\
  pusher (boot w fl now) = None /\
  (forall a, step a (boot w fl now) = None) /\
  (forall acts p', run acts (boot w fl now) = Some p' ->
     count isHandle (trace p') = 0%nat /\ count isCall (trace p') = 0%nat).
Proof.
  intros H1 H2.
  destruct (startup_no_auth w fl H1 H2) as [e [Hs Hl]].
  assert (Hb : boot w fl now =
               {| clock := now; mainLoop := idle; gatherLoop := idle;
                  server := Down; pusher := None; exited := Some 1;
                  trace := [Log e] |}).
  { unfold boot. rewrite Hs. reflexivity. }
  rewrite Hs, Hb. simpl.
  repeat split; try reflexivity.
  - apply run_exited with (st := 1) in H; [|reflexivity].
    destruct H as [_ ->]. reflexivity.
  - apply run_exited with (st := 1) in H; [|reflexivity].
    destruct H as [_ ->]. reflexivity.
Qed.

Lemma no_auth_aborts_before_loops_witness :
  outcome (startup exampleWorld defaultFlags) = Exit 1 /\
  forall a, step a (boot exampleWorld defaultFlags 0) = None.
Proof.
  pose proof (no_auth_aborts_before_loops exampleWorld defaultFlags 0
                eq_refl eq_refl) as H.
  split; [exact (proj1 H) | exact (proj1 (proj2 (proj2 (proj2 (proj2 (proj2 (proj2 (proj2 H))))))))].
Defined.

(** The effects of start-up hold no call into the controller, no request
    and no push. *)
Lemma startup_effects_quiet w fl :
  count isCall (effects (startup w fl)) = 0%nat /\
  count isHandle (effects (startup w fl)) = 0%nat /\
  count isPush (effects (startup w fl)) = 0%nat.
Proof.
  unfold effects. startup_cases; auto.
Qed.

(** ** The push goroutine *)

Lemma startup_push_only_if w fl es o :
  startup w fl = (es, o) ->
  existsb isPushMetrics es = true ->
  config.Endpoint (config.PushGateway_ (configAgent_Config w)) <> "".
Proof.
  revert es o. startup_cases; intros es o H; inversion H; subst; simpl;
    try discriminate; intros _; now apply nonempty_true.
Qed.

Lemma startup_push_if w fl es c :
  startup w fl = (es, Continue c) ->
  config.Endpoint (config.PushGateway_ (configAgent_Config w)) <> "" ->
  In (Go (PushMetrics "jenkins-operator"
            (config.Endpoint (config.PushGateway_ (configAgent_Config w)))
            (config.Interval (config.PushGateway_ (configAgent_Config w))))) es /\
  pusherIn es = Some (config.Endpoint (config.PushGateway_ (configAgent_Config w))).
Proof.
  intros H Hep. apply nonempty_true in Hep. revert es c H.
  startup_cases; intros es c H; inversion H; subst; simpl;
    try congruence; (split; [|reflexivity]);
    repeat (try (left; reflexivity); right).
Qed.

Lemma startup_no_push w fl es o :
  startup w fl = (es, o) ->
  config.Endpoint (config.PushGateway_ (configAgent_Config w)) = "" ->
  pusherIn es = None.
Proof.
  intros H Hep. apply nonempty_false in Hep. revert es o H.
  startup_cases; intros es o H; inversion H; subst; simpl;
    try congruence; reflexivity.
Qed.

Lemma count_app f es es' :
  count f (es ++ es') = (count f es + count f es')%nat.
Proof.
  unfold count. rewrite filter_app, length_app. reflexivity.
Qed.

(** No step changes who pushes, and only the push goroutine pushes. *)
Lemma step_no_pusher a p p' :
  step a p = Some p' -> pusher p = None ->
  pusher p' = None /\ count isPush (trace p') = count isPush (trace p).
Proof.
  unfold step. intros H Hp.
  destruct (exited p); [discriminate|].
  destruct a; simpl in H;
    repeat match type of H with
           | context [match ?x with _ => _ end] => destruct x eqn:?
           end;
    try discriminate; inversion H; subst; clear H;
    try (destruct l); simpl; unfold afterSync;
    rewrite ?count_app; simpl; try (split; [assumption | lia]);
    try congruence.
  all: try match goal with |- context [match ?e with Some _ => _ | None => _ end] =>
             destruct e end.
  all: unfold count, afterSyncMetrics; simpl; split; [assumption | lia].
Qed.

Lemma run_no_pusher acts : forall p p',
  run acts p = Some p' -> pusher p = None ->
  pusher p' = None /\ count isPush (trace p') = count isPush (trace p).
Proof.
  induction acts as [|a rest IH]; simpl; intros p p' H Hp.
  - inversion H; subst. auto.
  - destruct (step a p) as [q|] eqn:Hs; [|discriminate].
    destruct (step_no_pusher a p q Hs Hp) as [Hq Hc].
    destruct (IH q p' H Hq) as [Hq' Hc']. split; congruence.
Qed.

(** C7. The push goroutine is started exactly when the configuration read
    at start-up names a push-gateway endpoint: a [go m.PushMetrics] among
    the effects of start-up implies a non-empty endpoint; a start-up that
    reaches its loops with a non-empty endpoint has started it, on that
    endpoint and interval; and with an empty endpoint the process has no
    push goroutine, and nothing it ever does is a push. *)
Theorem push_started_iff_endpoint w fl now :
  (existsb isPushMetrics (effects (startup w fl)) = true ->
   config.Endpoint (config.PushGateway_ (configAgent_Config w)) <> "") /\
  (forall c, outcome (startup w fl) = Continue c ->
   config.Endpoint (config.PushGateway_ (configAgent_Config w)) <> "" ->
   In (Go (PushMetrics "jenkins-operator"
             (config.Endpoint (config.PushGateway_ (configAgent_Config w)))
             (config.Interval (config.PushGateway_ (configAgent_Config w)))))
      (effects (startup w fl)) /\
   pusher (boot w fl now) =
     Some (config.Endpoint (config.PushGateway_ (configAgent_Config w))) /\
   step PushTick (boot w fl now) <> None) /\
  (config.Endpoint (config.PushGateway_ (configAgent_Config w)) = "" ->
   existsb isPushMetrics (effects (startup w fl)) = false /\
   pusher (boot w fl now) = None /\
   forall acts p', run acts (boot w fl now) = Some p' ->
     step PushTick p' = None /\ count isPush (trace p') = 0%nat).
Proof.
  destruct (startup w fl) as [es o] eqn:Hs. unfold effects, outcome. simpl.
  split; [|split].
  - apply (startup_push_only_if w fl es o Hs).
  - intros c -> Hep.
    destruct (startup_push_if w fl es c Hs Hep) as [Hin Hp].
    split; [exact Hin|]. unfold boot. rewrite Hs. simpl.
    split; [exact Hp|]. unfold step. simpl. rewrite Hp. discriminate.
  - intros Hep.
    assert (Hex : existsb isPushMetrics es = false).
    { destruct (existsb isPushMetrics es) eqn:He; [|reflexivity].
      exfalso. exact (startup_push_only_if w fl es o Hs He Hep). }
    pose proof (startup_no_push w fl es o Hs Hep) as Hp.
    assert (Hb : pusher (boot w fl now) = None).
    { unfold boot. rewrite Hs. destruct o; simpl; auto. }
    assert (Ht : count isPush (trace (boot w fl now)) = 0%nat).
    { unfold boot. rewrite Hs.
      pose proof (startup_effects_quiet w fl) as Hq. rewrite Hs in Hq.
      unfold effects in Hq. simpl in Hq. destruct o; simpl; apply Hq. }
    split; [exact Hex|]. split; [exact Hb|].
    intros acts p' Hr.
    destruct (run_no_pusher acts _ p' Hr Hb) as [Hp' Hc].
    split; [|congruence].
    unfold step. destruct (exited p'); [reflexivity|]. rewrite Hp'. reflexivity.
Qed.

Lemma push_started_iff_endpoint_witness :
  pusher (boot pushWorld exampleFlags 0) = Some "http://pushgateway" /\
  pusher (boot exampleWorld exampleFlags 0) = None.
Proof.
  split.
  - exact (proj1 (proj2 (proj1 (proj2 (push_started_iff_endpoint pushWorld exampleFlags 0))
                           _ eq_refl ltac:(discriminate)))).
  - exact (proj1 (proj2 (proj2 (proj2 (push_started_iff_endpoint exampleWorld exampleFlags 0))
                           eq_refl))).
Defined.

(** ** Authentication *)

(** C9. With [--jenkins-token-file] set, the value of
    [--jenkins-bearer-token-file] has no influence on start-up at all, set
    or not (so setting both is no error and the bearer-token file is not
    read): the effects and the outcome are those of the same flags without
    a bearer-token file, and [ioutil.ReadFile] is called on no other file
    than those of the basic token, the CA certificate and the GitHub
    token.  When start-up
    succeeds, the client has basic auth
    with the user name of the flags and the token of the basic token file,
    and no bearer token. *)
Theorem basic_auth_takes_precedence w fl :
  jenkinsTokenFile fl <> "" ->
  (forall f, startup w (setBearerTokenFile f fl) = startup w fl) /\
  (forall f, In (ReadFile f) (effects (startup w fl)) ->
     f = jenkinsTokenFile fl \/ f = caCertFile fl \/ f = githubTokenFile fl) /\
  (forall es c, startup w fl = (es, Continue c) ->
     exists raw,
       ioutil_ReadFile w (jenkinsTokenFile fl) = inr raw /\
       jenkins.authConfig (jc c) =
         {| jenkins.Basic :=
              Some {| jenkins.User := jenkinsUserName fl;
                      jenkins.Token := string_of_bytes (bytes.TrimSpace raw) |};
            jenkins.BearerToken := None |}).
Proof.
  intros Hne. apply nonempty_true in Hne. split; [|split].
  - intros f. unfold startup. simpl. rewrite Hne. reflexivity.
  - intros f. unfold effects.
    startup_cases; try congruence; intros Hin;
      repeat match goal with
             | H : _ \/ _ |- _ => destruct H
             | H : False |- _ => destruct H
             | H : ReadFile _ = ReadFile _ |- _ => inversion H; subst; clear H
             | H : _ = ReadFile _ |- _ => discriminate H
             end; auto.
  - startup_cases; intros es c H; inversion H; subst; simpl;
      try congruence; eexists; split; reflexivity.
Qed.

Lemma basic_auth_takes_precedence_witness :
  startup exampleWorld bothTokenFlags = startup exampleWorld exampleFlags /\
  jenkinsBearerTokenFile bothTokenFlags = "/etc/jenkins/bearer" /\
  exists es c, startup exampleWorld bothTokenFlags = (es, Continue c) /\
    jenkins.authConfig (jc c) =
      {| jenkins.Basic :=
           Some {| jenkins.User := "jenkins-trigger"; jenkins.Token := "abc123" |};
         jenkins.BearerToken := None |}.
Proof.
  pose proof (basic_auth_takes_precedence exampleWorld exampleFlags
                ltac:(discriminate)) as [H1 _].
  split; [exact (H1 "/etc/jenkins/bearer")|].
  split; [reflexivity|].
  do 2 eexists. split; [reflexivity|]. reflexivity.
Defined.

(** ** TLS *)

(** C10. A start-up that reaches its loops gave the Jenkins client a TLS
    configuration exactly when both [--cert-file] and [--key-file] are set,
    and called [tls.LoadX509KeyPair] exactly then.  That configuration has
    the one certificate of the two files; its root CAs are unset when
    [--ca-cert-file] is empty and are the pool of that file otherwise.  When
    one of [--cert-file] and [--key-file] is empty, start-up is, in effects
    and outcome, the start-up with none of the three TLS flags set. *)
Theorem tls_iff_cert_and_key w fl :
  (forall es c, startup w fl = (es, Continue c) ->
     (jenkins.tlsConfig (jc c) <> None <-> certFile fl <> "" /\ keyFile fl <> "") /\
     (existsb isLoadX509KeyPair es = true <-> certFile fl <> "" /\ keyFile fl <> "") /\
     (forall cfg, jenkins.tlsConfig (jc c) = Some cfg ->
        tls.Certificates cfg =
          [{| tls.certPEM := certFile fl; tls.keyPEM := keyFile fl |}] /\
        (caCertFile fl = "" -> tls.RootCAs cfg = None) /\
        (caCertFile fl <> "" ->
         exists pem, ioutil_ReadFile w (caCertFile fl) = inr pem /\
                     tls.RootCAs cfg = Some [pem]))) /\
  (certFile fl = "" \/ keyFile fl = "" ->
   startup w fl = startup w (setCertFiles "" "" "" fl)).
Proof.
  split.
  - startup_cases; intros es c H; inversion H; subst; clear H; simpl;
      repeat match goal with
             | H : (_ && _)%bool = true |- _ =>
                 apply andb_true_iff in H; destruct H
             | H : (_ && _)%bool = false |- _ =>
                 apply andb_false_iff in H; destruct H
             | H : nonempty _ = true |- _ => apply nonempty_true in H
             | H : nonempty _ = false |- _ => apply nonempty_false in H
             end;
      (split; [|split]).
    all: try (intros cfg Hc; discriminate Hc).
    all: try (intros cfg Hc; inversion Hc; subst; simpl;
              split; [reflexivity|];
              split;
              [ intros ?; first [reflexivity | congruence]
              | intros ?;
                first [ congruence
                      | eexists; split;
                        [first [reflexivity | eassumption] | reflexivity] ] ]).
    all: split;
      [ intros ?; try (split; assumption); congruence
      | intros [? ?]; try discriminate; try reflexivity; congruence ].
  - intros Hor.
    assert (Hb : (nonempty (certFile fl) && nonempty (keyFile fl))%bool = false).
    { apply andb_false_iff.
      destruct Hor as [Hc|Hk]; [left | right]; now apply nonempty_false. }
    unfold startup. simpl. rewrite Hb. reflexivity.
Qed.

Lemma tls_iff_cert_and_key_witness :
  exists es c, startup exampleWorld tlsFlags = (es, Continue c) /\
    jenkins.tlsConfig (jc c) <> None /\
    startup exampleWorld (setCertFiles "/etc/tls/cert.pem" "" "/etc/tls/ca.pem" exampleFlags)
    = startup exampleWorld exampleFlags.
Proof.
  do 2 eexists. split; [reflexivity|]. split.
  - apply (proj1 (tls_iff_cert_and_key exampleWorld tlsFlags) _ _ eq_refl).
    split; discriminate.
  - apply (proj2 (tls_iff_cert_and_key exampleWorld
             (setCertFiles "/etc/tls/cert.pem" "" "/etc/tls/ca.pem" exampleFlags))).
    right. reflexivity.
Defined.

(** ** Credentials *)

Section TrimRunesFacts.

Variable is1 : byte -> bool.
Variable is2 : byte -> byte -> bool.
Variable is3 : byte -> byte -> byte -> bool.

Lemma trimLeft_prefix_bounded : forall n s,
  (List.length s <= n)%nat ->
  exists pre,
    s = pre ++ trimLeft is1 is2 is3 s /\ Runes is1 is2 is3 pre /\
    leadsWith is1 is2 is3 (trimLeft is1 is2 is3 s) = false.
Proof.
  induction n as [|n IH]; intros s Hlen.
  - destruct s; [|simpl in Hlen; lia].
    exists []. repeat split. constructor.
  - destruct s as [|b1 t1]; [exists []; repeat split; constructor|].
    simpl in Hlen. simpl trimLeft.
    destruct (is1 b1) eqn:H1.
    { destruct (IH t1 ltac:(lia)) as [pre [Heq [Hr Hl]]].
      exists (b1 :: pre). split; [simpl; congruence|].
      split; [now constructor | exact Hl]. }
    destruct t1 as [|b2 t2].
    { exists []. split; [reflexivity|]. split; [constructor|].
      simpl. rewrite H1. reflexivity. }
    simpl in Hlen.
    destruct (is2 b1 b2) eqn:H2.
    { destruct (IH t2 ltac:(lia)) as [pre [Heq [Hr Hl]]].
      exists (b1 :: b2 :: pre). split; [simpl; congruence|].
      split; [now constructor | exact Hl]. }
    destruct t2 as [|b3 t3].
    { exists []. split; [reflexivity|]. split; [constructor|].
      simpl. rewrite H1, H2. reflexivity. }
    simpl in Hlen.
    destruct (is3 b1 b2 b3) eqn:H3.
    { destruct (IH t3 ltac:(lia)) as [pre [Heq [Hr Hl]]].
      exists (b1 :: b2 :: b3 :: pre). split; [simpl; congruence|].
      split; [now constructor | exact Hl]. }
    exists []. split; [reflexivity|]. split; [constructor|].
    simpl. rewrite H1, H2, H3. reflexivity.
Qed.

Lemma trimLeft_prefix s :
  exists pre,
    s = pre ++ trimLeft is1 is2 is3 s /\ Runes is1 is2 is3 pre /\
    leadsWith is1 is2 is3 (trimLeft is1 is2 is3 s) = false.
Proof. exact (trimLeft_prefix_bounded (List.length s) s (le_n _)). Qed.

Lemma Runes_app s s' :
  Runes is1 is2 is3 s -> Runes is1 is2 is3 s' -> Runes is1 is2 is3 (s ++ s').
Proof.
  induction 1; intros Hs'; simpl;
    [ assumption
    | apply Runes_1; auto
    | apply Runes_2; auto
    | apply Runes_3; auto ].
Qed.

Lemma leadsWith_app u v :
  leadsWith is1 is2 is3 u = true -> leadsWith is1 is2 is3 (u ++ v) = true.
Proof.
  destruct u as [|b1 [|b2 [|b3 u]]]; simpl; try discriminate.
  - rewrite orb_false_r. intros ->. reflexivity.
  - rewrite orb_false_r. intros H. apply orb_true_iff in H.
    destruct H as [-> | ->]; [reflexivity|].
    destruct (is1 b1); simpl; [reflexivity|]. reflexivity.
  - auto.
Qed.

End TrimRunesFacts.

Lemma Runes_rev is1 is2 is3 s :
  Runes is1 (fun b1 b2 => is2 b2 b1) (fun b1 b2 b3 => is3 b3 b2 b1) s ->
  Runes is1 is2 is3 (rev s).
Proof.
  induction 1; simpl.
  - constructor.
  - apply Runes_app; [assumption|]. constructor; [assumption | constructor].
  - change (b1 :: b2 :: s) with ([b1; b2] ++ s).
    replace ((rev s ++ [b2]) ++ [b1]) with (rev s ++ [b2; b1])
      by (rewrite <- app_assoc; reflexivity).
    apply Runes_app; [assumption|]. apply Runes_2; [assumption | constructor].
  - replace (((rev s ++ [b3]) ++ [b2]) ++ [b1]) with (rev s ++ [b3; b2; b1])
      by (rewrite <- !app_assoc; reflexivity).
    apply Runes_app; [assumption|]. apply Runes_3; [assumption | constructor].
Qed.

(** What [bytes.TrimSpace] returns is the slice without a run of white-space
    runes at its front and one at its end, and neither begins nor ends with
    a white-space rune. *)
Lemma TrimSpace_stripped raw : stripped raw (bytes.TrimSpace raw).
Proof.
  unfold stripped, bytes.TrimSpace, TrimRightSpace.
  destruct (trimLeft_prefix isSpace1 isSpace2 isSpace3 raw)
    as [pre [Heq [Hpre Hlead]]].
  fold (TrimLeftSpace raw) in *.
  set (t1 := TrimLeftSpace raw) in *.
  destruct (trimLeft_prefix isSpace1 (fun b1 b2 => isSpace2 b2 b1)
              (fun b1 b2 b3 => isSpace3 b3 b2 b1) (rev t1))
    as [q [Heq' [Hq Htrail]]].
  set (r := trimLeft isSpace1 (fun b1 b2 => isSpace2 b2 b1)
              (fun b1 b2 b3 => isSpace3 b3 b2 b1) (rev t1)) in *.
  assert (Ht1 : t1 = rev r ++ rev q).
  { rewrite <- rev_app_distr, <- Heq'. symmetry. apply rev_involutive. }
  exists pre, (rev q). split; [rewrite <- Ht1; exact Heq|].
  split; [exact Hpre|]. split; [apply Runes_rev; exact Hq|].
  split.
  - unfold leadingSpace.
    destruct (leadsWith isSpace1 isSpace2 isSpace3 (rev r)) eqn:Hl; [|reflexivity].
    apply leadsWith_app with (v := rev q) in Hl. rewrite <- Ht1 in Hl.
    congruence.
  - unfold trailingSpace. rewrite rev_involutive. exact Htrail.
Qed.

(** C8. In a start-up that reaches its loops every credential is the
    content of its file passed through [bytes.TrimSpace], that is, the
    content without the white space at its two ends: the token of basic
    auth when [--jenkins-token-file] is set, the bearer token otherwise, and
    the GitHub OAuth token. *)
Theorem credentials_are_trimmed w fl es c :
  startup w fl = (es, Continue c) ->
  (jenkinsTokenFile fl <> "" ->
   exists raw,
     ioutil_ReadFile w (jenkinsTokenFile fl) = inr raw /\
     stripped raw (bytes.TrimSpace raw) /\
     jenkins.Basic (jenkins.authConfig (jc c)) =
       Some {| jenkins.User := jenkinsUserName fl;
               jenkins.Token := string_of_bytes (bytes.TrimSpace raw) |}) /\
  (jenkinsTokenFile fl = "" ->
   exists raw,
     ioutil_ReadFile w (jenkinsBearerTokenFile fl) = inr raw /\
     stripped raw (bytes.TrimSpace raw) /\
     jenkins.BearerToken (jenkins.authConfig (jc c)) =
       Some {| jenkins.BearerToken_Token := string_of_bytes (bytes.TrimSpace raw) |}) /\
  (exists raw,
     ioutil_ReadFile w (githubTokenFile fl) = inr raw /\
     stripped raw (bytes.TrimSpace raw) /\
     github.token (ghc c) = string_of_bytes (bytes.TrimSpace raw)).
Proof.
  revert es c.
  startup_cases; intros es c H; inversion H; subst; clear H; simpl;
    repeat match goal with
           | H : nonempty _ = true |- _ => apply nonempty_true in H
           | H : nonempty _ = false |- _ => apply nonempty_false in H
           end.
  all: split; [|split].
  all: try (intros ?; congruence).
  all: try intros _.
  all: eexists; split;
    [ first [reflexivity | eassumption]
    | split; [apply TrimSpace_stripped | reflexivity] ].
Qed.

Lemma credentials_are_trimmed_witness :
  exists es c,
    startup exampleWorld exampleFlags = (es, Continue c) /\
    ioutil_ReadFile exampleWorld "/etc/jenkins/token"
      = inr (list_byte_of_string " abc123
") /\
    jenkins.Basic (jenkins.authConfig (jc c)) =
      Some {| jenkins.User := "jenkins-trigger"; jenkins.Token := "abc123" |} /\
    github.token (ghc c) = "gh-secret".
Proof.
  do 2 eexists. split; [reflexivity|].
  pose proof (credentials_are_trimmed exampleWorld exampleFlags _ _ eq_refl)
    as [H1 [_ H3]].
  split; [reflexivity|]. split.
  - destruct (H1 ltac:(discriminate)) as [raw [Hr [_ Hb]]].
    rewrite Hb. inversion Hr. reflexivity.
  - destruct H3 as [raw [Hr [_ Hg]]]. rewrite Hg. inversion Hr. reflexivity.
Defined.

(** * The steady state *)

(** All the ways of a step [H : step a p = Some p']. *)
Ltac step_cases H :=
  unfold step in H;
  match type of H with
  | context [exited ?p] => destruct (exited p) eqn:?; [discriminate|]
  end;
  match type of H with
  | context [match ?a with Elapse _ => _ | _ => _ end] => destruct a
  end;
  simpl in H;
  repeat match type of H with
         | context [match ?x with _ => _ end] => destruct x eqn:?
         end;
  try discriminate; inversion H; subst; clear H.

Lemma startup_goroutines w fl es c :
  startup w fl = (es, Continue c) ->
  servesIn es = true /\ gathersIn es = true.
Proof.
  revert es c.
  startup_cases; intros es c H; inversion H; subst; split; reflexivity.
Qed.

Lemma boot_live w fl now c :
  outcome (startup w fl) = Continue c ->
  boot w fl now =
    {| clock := now; mainLoop := main_loop now; gatherLoop := gather_loop now;
       server := serve_start;
       pusher := pusherIn (effects (startup w fl));
       exited := None; trace := effects (startup w fl) |}.
Proof.
  unfold outcome, effects, boot.
  destruct (startup w fl) as [es o] eqn:Hs. simpl. intros ->.
  destruct (startup_goroutines w fl es c Hs) as [-> ->]. reflexivity.
Qed.

(** Only the return of [main] and the end of [ListenAndServe] end the
    process, with status 0 and 1. *)
Lemma step_exit a p p' :
  step a p = Some p' ->
  match a with
  | SelectSig Reconcile => exited p' = Some 0
  | ListenAndServeReturns _ => exited p' = Some 1
  | _ => exited p' = None
  end.
Proof.
  intros H. step_cases H; try destruct l; simpl; auto.
Qed.

Lemma step_live a p p' :
  step a p = Some p' -> exits a = false -> exited p' = None.
Proof.
  intros H Ha. apply step_exit in H.
  destruct a as [| | | |[]| | | | | |]; simpl in *; auto; discriminate.
Qed.

(** ** The reconcile loop *)

(** Each return of [c.Sync()], and nothing else, adds one observation. *)
Lemma step_observe a p p' :
  step a p = Some p' ->
  count isObserve (trace p') =
    (count isObserve (trace p) + if isSyncReturns a then 1 else 0)%nat.
Proof.
  intros H. step_cases H; try destruct l; simpl;
    unfold afterSync, afterSyncMetrics, handleRequest, pushOnce, emitP; simpl;
    rewrite ?count_app;
    try match goal with
        | |- context [match ?e with Some _ => _ | None => _ end] => destruct e
        end;
    unfold count; simpl; lia.
Qed.

(** [main]'s loop is left by [case <-sig] only. *)
Lemma step_main_returns a p p' :
  step a p = Some p' ->
  phase (mainLoop p) <> Returned ->
  exits a = false ->
  phase (mainLoop p') <> Returned.
Proof.
  intros H Hph Ha. step_cases H; try destruct l; simpl in *;
    unfold notify; try discriminate; auto;
    try (destruct (started (mainLoop p)); simpl; auto).
Qed.

Lemma run_without_exit acts : forall p p',
  run acts p = Some p' ->
  forallb (fun a => negb (exits a)) acts = true ->
  exited p = None ->
  phase (mainLoop p) <> Returned ->
  exited p' = None /\
  phase (mainLoop p') <> Returned /\
  count isObserve (trace p') =
    (count isObserve (trace p) + List.length (filter isSyncReturns acts))%nat.
Proof.
  induction acts as [|a rest IH]; simpl; intros p p' Hr Hq He Hph.
  - inversion Hr; subst. repeat split; auto.
  - destruct (step a p) as [q|] eqn:Hs; [|discriminate].
    apply andb_true_iff in Hq. destruct Hq as [Ha Hq].
    apply negb_true_iff in Ha.
    destruct (IH q p' Hr Hq (step_live a p q Hs Ha)
                (step_main_returns a p q Hs Hph Ha)) as [H1 [H2 H3]].
    split; [exact H1|]. split; [exact H2|].
    rewrite H3, (step_observe a p q Hs).
    destruct (isSyncReturns a); simpl; lia.
Qed.

(** C1. When [c.Sync()] returns, with an error or without, the process goes
    on and [main] is back at its [select] with its ticker and its signal
    channel as they were; what the iteration did is: the error, if any,
    logged at error level, the duration logged, and the duration observed
    on the resync metric.  A tick that is buffered then starts the next
    iteration.  And along any run in which [main] does not receive a signal
    and [ListenAndServe] does not return, whatever the results of [Sync],
    the process stays alive, [main] stays in its loop, and there is one
    more observation for every return of [Sync]. *)
Theorem sync_error_is_not_fatal p start err :
  exited p = None ->
  phase (mainLoop p) = InCall start ->
  (exists p',
     step (SyncReturns err) p = Some p' /\
     exited p' = None /\
     phase (mainLoop p') = AtSelect /\
     tick (mainLoop p') = tick (mainLoop p) /\
     sig (mainLoop p') = sig (mainLoop p) /\
     gatherLoop p' = gatherLoop p /\
     server p' = server p /\
     trace p' =
       trace p ++
       match err with
       | Some e => [Log (entryErr ErrorLevel e "Error syncing.")]
       | None => []
       end ++
       [Log (entryField InfoLevel "duration" (clock p - start) "Synced");
        Observe (clock p - start)] /\
     (buffered (tick (mainLoop p')) = true ->
      exists p'', step (SelectTick Reconcile) p' = Some p'' /\
                  phase (mainLoop p'') = InCall (clock p') /\
                  trace p'' = trace p' ++ [CallSync])) /\
  (forall acts p',
     run acts p = Some p' ->
     forallb (fun a => negb (exits a)) acts = true ->
     exited p' = None /\
     phase (mainLoop p') <> Returned /\
     count isObserve (trace p') =
       (count isObserve (trace p) + List.length (filter isSyncReturns acts))%nat).
Proof.
  intros He Hph. split.
  - eexists. split.
    { unfold step. rewrite He, Hph. reflexivity. }
    simpl. repeat split; try assumption.
    intros Hb. eexists. split.
    { unfold step. simpl. rewrite He, Hb. reflexivity. }
    simpl. split; reflexivity.
  - intros acts p' Hr Hq.
    apply (run_without_exit acts p p' Hr Hq He). rewrite Hph. discriminate.
Qed.

Lemma sync_error_is_not_fatal_witness :
  exists p',
    step (SyncReturns (Some "jenkins unreachable")) inSync = Some p' /\
    exited p' = None /\
    phase (mainLoop p') = AtSelect.
Proof.
  destruct (proj1 (sync_error_is_not_fatal inSync (30 * time.Second)
                     (Some "jenkins unreachable") eq_refl eq_refl))
    as [p' [Hs [He [Hp _]]]].
  exists p'. repeat split; assumption.
Defined.

Example three_ticks_three_observations :
  exited (after threeTicks p0) = None /\
  phase (mainLoop (after threeTicks p0)) = AtSelect /\
  count isCall (trace (after threeTicks p0)) = 3%nat /\
  filter isObserve (trace (after threeTicks p0)) =
    [Observe (10 * time.Millisecond); Observe (10 * time.Millisecond);
     Observe (10 * time.Millisecond)].
Proof. vm_compute. repeat split; reflexivity. Qed.

(** ** The HTTP server *)

(** C4. [serve] is started on the fixed address [":8080"].  When
    [http.ListenAndServe] returns, before the port is bound or after, the
    error is logged at fatal level and the process ends with status 1, and
    nothing happens in it any more.  No other step ends a process with a
    status other than 0; in particular the returns of [c.Sync()], with an
    error or without, and of [c.SyncMetrics()] leave it running. *)
Theorem serve_failure_is_fatal p :
  exited p = None ->
  (forall w fl now c, outcome (startup w fl) = Continue c ->
     server (boot w fl now) = Binding ":8080") /\
  (server p <> Down ->
   forall err, exists p',
     step (ListenAndServeReturns err) p = Some p' /\
     exited p' = Some 1 /\
     trace p' = trace p ++ [Log (entryErr FatalLevel err "ListenAndServe returned.")] /\
     forall a, step a p' = None) /\
  (forall a q st, step a p = Some q -> exited q = Some st -> st <> 0 ->
     exists err, a = ListenAndServeReturns err) /\
  (forall err q, step (SyncReturns err) p = Some q -> exited q = None) /\
  (forall q, step SyncMetricsReturns p = Some q -> exited q = None).
Proof.
  intros He. split; [|split; [|split; [|split]]].
  - intros w fl now c Hc. rewrite (boot_live w fl now c Hc). reflexivity.
  - intros Hs err.
    assert (Hstep : step (ListenAndServeReturns err) p =
              Some (exitP 1 (emitP [Log (entryErr FatalLevel err "ListenAndServe returned.")] p))).
    { unfold step. rewrite He. destruct (server p); [congruence| |]; reflexivity. }
    eexists. split; [exact Hstep|]. simpl. repeat split.
  - intros a q st Hs Hq Hst. apply step_exit in Hs.
    destruct a as [| | | |[]| | | | |err|]; try congruence.
    exists err. reflexivity.
  - intros err q Hs. exact (step_exit _ _ _ Hs).
  - intros q Hs. exact (step_exit _ _ _ Hs).
Qed.

Lemma serve_failure_is_fatal_witness :
  exists p',
    step (ListenAndServeReturns "listen tcp :8080: bind: address already in use") p0
      = Some p' /\
    exited p' = Some 1.
Proof.
  destruct (proj1 (proj2 (serve_failure_is_fatal p0 eq_refl))
              ltac:(discriminate)
              "listen tcp :8080: bind: address already in use")
    as [p' [Hs [He _]]].
  exists p'. split; assumption.
Defined.

(** ** The tickers *)

Lemma step_cadence a p p' l t0 :
  step a p = Some p' -> cadence t0 (loopOf l p) -> cadence t0 (loopOf l p').
Proof.
  intros H Hc. step_cases H;
    repeat match goal with l : LoopId |- _ => destruct l end;
    simpl in *; unfold notify;
    repeat match goal with
           | |- context [if ?b then _ else _] => destruct b
           end;
    simpl; try exact Hc.
  all: unfold cadence in *; simpl in *;
    destruct Hc as [Hp [k [Hk Hn]]]; split; [exact Hp|];
    (exists (k + 1)); split; [lia|]; rewrite Hn, Hp; lia.
Qed.




(** ** Shutdown *)

Lemma step_Deliver p s :
  exited p = None ->
  step (Deliver s) p =
    Some (setLoop Gather (notify (gatherLoop p))
            (setLoop Reconcile (notify (mainLoop p)) p)).
Proof.
  intros He. unfold step. rewrite He. destruct s; reflexivity.
Qed.

Lemma loopOf_notified l p :
  loopOf l (setLoop Gather (notify (gatherLoop p))
              (setLoop Reconcile (notify (mainLoop p)) p)) =
  notify (loopOf l p).
Proof. destruct l; reflexivity. Qed.

Lemma notify_phase lp : phase (notify lp) = phase lp.
Proof. unfold notify. destruct (started lp); reflexivity. Qed.

Lemma notify_tick lp : tick (notify lp) = tick lp.
Proof. unfold notify. destruct (started lp); reflexivity. Qed.

Lemma notify_sig lp : started lp = true -> sig (notify lp) = true.
Proof. unfold notify. intros ->. reflexivity. Qed.

(** A loop that has returned stays returned and calls nothing any more. *)
Lemma step_returned a p q l :
  step a p = Some q ->
  phase (loopOf l p) = Returned ->
  phase (loopOf l q) = Returned /\
  count (isCallOf l) (trace q) = count (isCallOf l) (trace p).
Proof.
  intros H Hph. step_cases H;
    repeat match goal with l : LoopId |- _ => destruct l end;
    simpl in *; rewrite ?notify_phase; try congruence;
    unfold afterSync, afterSyncMetrics, handleRequest, pushOnce, emitP; simpl;
    rewrite ?count_app;
    try match goal with
        | |- context [match ?e with Some _ => _ | None => _ end] => destruct e
        end;
    unfold count; simpl; (split; [assumption | lia]).
Qed.

Lemma run_returned acts l : forall p q,
  run acts p = Some q ->
  phase (loopOf l p) = Returned ->
  phase (loopOf l q) = Returned /\
  count (isCallOf l) (trace q) = count (isCallOf l) (trace p).
Proof.
  induction acts as [|a rest IH]; simpl; intros p q Hr Hph.
  - inversion Hr; subst. auto.
  - destruct (step a p) as [p1|] eqn:Hs; [|discriminate].
    destruct (step_returned a p p1 l Hs Hph) as [H1 H2].
    destruct (IH p1 q Hr H1) as [H3 H4]. split; congruence.
Qed.

(** Once set, the shutdown condition of a loop stays set. *)
Lemma step_shutdownSet a p q l :
  step a p = Some q -> shutdownSet l p -> shutdownSet l q.
Proof.
  unfold shutdownSet. intros H Hs. step_cases H;
    repeat match goal with l : LoopId |- _ => destruct l end;
    simpl in *; rewrite ?notify_phase; auto;
    unfold notify;
    repeat match goal with
           | |- context [if ?b then _ else _] => destruct b
           end; simpl; auto.
  all: destruct Hs as [Hs|Hs]; [left; exact Hs | congruence].
Qed.

Lemma run_shutdownSet acts l : forall p q,
  run acts p = Some q -> shutdownSet l p -> shutdownSet l q.
Proof.
  induction acts as [|a rest IH]; simpl; intros p q Hr Hs.
  - inversion Hr; subst. exact Hs.
  - destruct (step a p) as [p1|] eqn:Hst; [|discriminate].
    exact (IH p1 q Hr (step_shutdownSet a p p1 l Hst Hs)).
Qed.

(** In a live process the call of an iteration in flight can return, and
    the loop is then back at its [select]. *)
Lemma iteration_returns p l start err :
  exited p = None ->
  phase (loopOf l p) = InCall start ->
  exists q, step (returnOf l err) p = Some q /\
            phase (loopOf l q) = AtSelect /\
            sig (loopOf l q) = sig (loopOf l p) /\
            exited q = None.
Proof.
  intros He Hph. destruct l; simpl in *; unfold step; rewrite He, Hph;
    eexists; (split; [reflexivity|]); simpl; auto.
Qed.

(** At its [select] with a signal buffered, a loop can take the signal,
    and returns. *)
Lemma select_sig p l :
  exited p = None ->
  phase (loopOf l p) = AtSelect ->
  sig (loopOf l p) = true ->
  exists q, step (SelectSig l) p = Some q /\ phase (loopOf l q) = Returned.
Proof.
  intros He Hph Hs. unfold step. rewrite He, Hph, Hs.
  eexists. split; [reflexivity|]. destruct l; reflexivity.
Qed.

(** At its [select] with a tick buffered, a loop can take the tick: the
    iteration starts and the signal channel is as it was. *)
Lemma select_tick p l :
  exited p = None ->
  phase (loopOf l p) = AtSelect ->
  buffered (tick (loopOf l p)) = true ->
  exists q, step (SelectTick l) p = Some q /\
            phase (loopOf l q) = InCall (clock p) /\
            sig (loopOf l q) = sig (loopOf l p) /\
            trace q = trace p ++ [call l] /\
            exited q = None.
Proof.
  intros He Hph Hb. unfold step. rewrite He, Hph, Hb.
  eexists. split; [reflexivity|]. destruct l; simpl; auto.
Qed.

Lemma returned_no_tick p l :
  phase (loopOf l p) = Returned -> step (SelectTick l) p = None.
Proof.
  intros Hph. unfold step. destruct (exited p); [reflexivity|].
  rewrite Hph. reflexivity.
Qed.

Lemma in_call_no_sig p l start :
  phase (loopOf l p) = InCall start -> step (SelectSig l) p = None.
Proof.
  intros Hph. unfold step. destruct (exited p); [reflexivity|].
  rewrite Hph. reflexivity.
Qed.

(** As long as [ListenAndServe] does not return, the process is gone only
    once [main] has returned from its loop: [main] is never stopped inside
    [c.Sync()]. *)
Lemma run_main_returned acts : forall p q,
  run acts p = Some q ->
  exited p = None ->
  forallb (fun a => negb (isListenAndServeReturns a)) acts = true ->
  exited q = None \/ phase (mainLoop q) = Returned.
Proof.
  induction acts as [|a rest IH]; simpl; intros p q Hr He Hq.
  - inversion Hr; subst. left. exact He.
  - destruct (step a p) as [p1|] eqn:Hs; [|discriminate].
    apply andb_true_iff in Hq. destruct Hq as [Ha Hq].
    destruct (exits a) eqn:Hx.
    + destruct a as [| | | |[]| | | | | |]; try discriminate.
      assert (Hp1 : exited p1 = Some 0) by exact (step_exit _ _ _ Hs).
      destruct (run_exited rest p1 q 0 Hp1 Hr) as [_ ->].
      right. unfold step in Hs. rewrite He in Hs. simpl in Hs.
      destruct (phase (mainLoop p)); try discriminate.
      destruct (sig (mainLoop p)); [|discriminate].
      inversion Hs; subst. reflexivity.
    + exact (IH p1 q Hr (step_live a p p1 Hs Hx) Hq).
Qed.

(** C2, as the claim has it, fails: thirty seconds after start-up both
    tickers fire, [gather] takes its tick and is inside [c.SyncMetrics()]
    when SIGTERM arrives; [main], at its [select], takes the signal and
    returns, which ends the process with status 0.  The iteration of
    [gather] that was in flight does not run to completion: nothing happens
    in the process any more. *)
Lemma shutdown_cuts_gather_iteration :
  run (firstTick ++ [SelectTick Gather; Deliver SIGTERM; SelectSig Reconcile]) p0
    = Some cutShort /\
  phase (gatherLoop cutShort) = InCall (30 * time.Second) /\
  exited cutShort = Some 0 /\
  ~ iterationCompletes Gather cutShort.
Proof.
  split; [reflexivity|]. split; [reflexivity|]. split; [reflexivity|].
  intros H. destruct (H (30 * time.Second) eq_refl) as [q [[acts Hr] Hph]].
  apply run_exited with (st := 0) in Hr; [|reflexivity].
  destruct Hr as [_ ->]. discriminate Hph.
Qed.

(** C2, amended.  For each of the two loops, in a running process: SIGINT
    and SIGTERM are buffered on the loop's channel and change nothing else
    of the loop; at its [select] with the signal buffered the loop can
    return, and can do nothing else when no tick is buffered; once it has
    taken the signal it has returned for good and never calls its iteration
    again; the return of [main] ends the process with status 0 at once;
    while the process runs, an iteration in flight is not interrupted by
    the signal and its call can return, with the loop back at its [select]
    and the signal still buffered; as long as [ListenAndServe] does not
    return, the process runs whenever [main] is inside [c.Sync()], so an
    iteration of the reconcile loop always can complete; and the shutdown
    condition, once set, stays set along every run. *)
Theorem shutdown_signal_ends_loops p l :
  exited p = None ->
  started (loopOf l p) = true ->
  (forall s, s = SIGINT \/ s = SIGTERM ->
     exists q, step (Deliver s) p = Some q /\
               sig (loopOf l q) = true /\
               phase (loopOf l q) = phase (loopOf l p) /\
               tick (loopOf l q) = tick (loopOf l p) /\
               exited q = None) /\
  (phase (loopOf l p) = AtSelect -> sig (loopOf l p) = true ->
     (exists q, step (SelectSig l) p = Some q /\ phase (loopOf l q) = Returned) /\
     (buffered (tick (loopOf l p)) = false -> step (SelectTick l) p = None)) /\
  (forall q, step (SelectSig l) p = Some q ->
     phase (loopOf l q) = Returned /\
     forall acts r, run acts q = Some r ->
       phase (loopOf l r) = Returned /\
       count (isCallOf l) (trace r) = count (isCallOf l) (trace q) /\
       step (SelectTick l) r = None) /\
  (forall q, step (SelectSig Reconcile) p = Some q ->
     exited q = Some 0 /\ forall a, step a q = None) /\
  (forall start err, phase (loopOf l p) = InCall start ->
     step (SelectSig l) p = None /\
     exists q, step (returnOf l err) p = Some q /\
               phase (loopOf l q) = AtSelect /\
               sig (loopOf l q) = sig (loopOf l p)) /\
  (forall acts q start,
     run acts p = Some q ->
     forallb (fun a => negb (isListenAndServeReturns a)) acts = true ->
     phase (mainLoop q) = InCall start ->
     exited q = None) /\
  (forall acts q, run acts p = Some q -> shutdownSet l p -> shutdownSet l q).
Proof.
  intros He Hst. split; [|split; [|split; [|split; [|split; [|split]]]]].
  - intros s _. eexists. split; [exact (step_Deliver p s He)|].
    rewrite loopOf_notified, notify_phase, notify_tick.
    split; [exact (notify_sig _ Hst)|]. repeat split. exact He.
  - intros Hph Hs. split; [exact (select_sig p l He Hph Hs)|].
    intros Hb. unfold step. rewrite He, Hph, Hb. reflexivity.
  - intros q Hq.
    assert (Hret : phase (loopOf l q) = Returned).
    { unfold step in Hq. rewrite He in Hq.
      destruct (phase (loopOf l p)); try discriminate.
      destruct (sig (loopOf l p)); [|discriminate].
      inversion Hq; subst. destruct l; reflexivity. }
    split; [exact Hret|]. intros acts r Hr.
    destruct (run_returned acts l q r Hr Hret) as [H1 H2].
    split; [exact H1|]. split; [exact H2|]. exact (returned_no_tick r l H1).
  - intros q Hq. pose proof (step_exit _ _ _ Hq) as Hx. simpl in Hx.
    split; [exact Hx|]. intros a. exact (step_exited a q 0 Hx).
  - intros start err Hph. split; [exact (in_call_no_sig p l start Hph)|].
    destruct (iteration_returns p l start err He Hph) as [q [H1 [H2 [H3 _]]]].
    exists q. repeat split; assumption.
  - intros acts q start Hr Hq Hph.
    destruct (run_main_returned acts p q Hr He Hq) as [H|H];
      [exact H | congruence].
  - intros acts q Hr Hs. exact (run_shutdownSet acts l p q Hr Hs).
Qed.

Lemma shutdown_signal_ends_loops_witness :
  exists q, step (Deliver SIGTERM) p0 = Some q /\ sig (gatherLoop q) = true.
Proof.
  destruct (proj1 (shutdown_signal_ends_loops p0 Gather eq_refl eq_refl)
              SIGTERM (or_intror eq_refl)) as [q [H1 [H2 _]]].
  exists q. split; assumption.
Defined.

(** C3, as the claim has it, fails: thirty seconds after start-up the
    ticker of [main] has fired and SIGTERM has arrived, so both cases of the
    [select] are ready; the [select] may take the tick, and [main] then
    starts another [c.Sync()]. *)
Lemma select_may_take_tick_over_signal :
  run (firstTick ++ [Deliver SIGTERM]) p0 = Some tickAndSignal /\
  phase (mainLoop tickAndSignal) = AtSelect /\
  buffered (tick (mainLoop tickAndSignal)) = true /\
  sig (mainLoop tickAndSignal) = true /\
  (exists q, step (SelectTick Reconcile) tickAndSignal = Some q /\
             phase (mainLoop q) = InCall (30 * time.Second) /\
             count isCall (trace q) = 1%nat) /\
  ~ prefersTermination Reconcile tickAndSignal.
Proof.
  split; [reflexivity|]. split; [reflexivity|]. split; [reflexivity|].
  split; [reflexivity|]. split.
  - eexists. split; [reflexivity|]. split; reflexivity.
  - intros H. specialize (H eq_refl eq_refl eq_refl). discriminate H.
Qed.

(** C3, amended.  When a loop of a running process is at its [select] with
    a tick and a signal both buffered, either case may be taken: the loop
    returns, or it starts an iteration and the signal stays buffered, so
    that the loop can still return at its next [select].  An iteration in
    flight is not cancelled by the loop: inside the call the signal case
    cannot be taken, a signal that arrives is only buffered, and the call
    returns as it would have. *)
Theorem select_takes_either p l :
  exited p = None ->
  (phase (loopOf l p) = AtSelect ->
   buffered (tick (loopOf l p)) = true ->
   sig (loopOf l p) = true ->
   (exists q, step (SelectSig l) p = Some q /\ phase (loopOf l q) = Returned) /\
   (exists q, step (SelectTick l) p = Some q /\
              phase (loopOf l q) = InCall (clock p) /\
              sig (loopOf l q) = true /\
              step (SelectSig l) q = None /\
              forall err, exists r,
                step (returnOf l err) q = Some r /\
                phase (loopOf l r) = AtSelect /\
                sig (loopOf l r) = true)) /\
  (forall start, phase (loopOf l p) = InCall start ->
   step (SelectSig l) p = None /\
   forall s, exists q,
     step (Deliver s) p = Some q /\
     phase (loopOf l q) = InCall start /\
     sig (loopOf l q) = true /\
     forall err, exists r,
       step (returnOf l err) q = Some r /\ phase (loopOf l r) = AtSelect).
Proof.
  intros He. split.
  - intros Hph Hb Hs. split; [exact (select_sig p l He Hph Hs)|].
    destruct (select_tick p l He Hph Hb) as [q [H1 [H2 [H3 [_ H5]]]]].
    exists q. split; [exact H1|]. split; [exact H2|].
    split; [congruence|]. split; [exact (in_call_no_sig q l _ H2)|].
    intros err.
    destruct (iteration_returns q l _ err H5 H2) as [r [R1 [R2 [R3 _]]]].
    exists r. split; [exact R1|]. split; [exact R2|]. congruence.
  - intros start Hph. split; [exact (in_call_no_sig p l start Hph)|].
    intros s. eexists. split; [exact (step_Deliver p s He)|].
    rewrite loopOf_notified, notify_phase.
    split; [exact Hph|]. split.
    { apply notify_sig. unfold started. rewrite Hph. reflexivity. }
    intros err.
    destruct (iteration_returns
                (setLoop Gather (notify (gatherLoop p))
                   (setLoop Reconcile (notify (mainLoop p)) p))
                l start err) as [r [R1 [R2 _]]].
    + destruct l; exact He.
    + rewrite loopOf_notified, notify_phase. exact Hph.
    + exists r. split; assumption.
Qed.

Lemma select_takes_either_witness :
  (exists q, step (SelectSig Reconcile) tickAndSignal = Some q /\
             phase (mainLoop q) = Returned) /\
  (exists q, step (SelectTick Reconcile) tickAndSignal = Some q /\
             phase (mainLoop q) = InCall (30 * time.Second) /\
             sig (mainLoop q) = true).
Proof.
  destruct (proj1 (select_takes_either tickAndSignal Reconcile eq_refl)
              eq_refl eq_refl eq_refl) as [H1 [q [H2 [H3 [H4 _]]]]].
  split; [exact H1|]. exists q. repeat split; assumption.
Defined.

(** * Further properties of start-up *)



(** X2. What a start-up that reaches its loops has done, in order: it has
    read the selected token file; with both [--cert-file] and [--key-file]
    set it has loaded the key pair and, with [--ca-cert-file] set, read the
    CA file; it has read the GitHub token file; it has started the push
    goroutine when the push gateway has an endpoint; then [serve], on the
    Jenkins client the controller holds, and [gather], on the controller
    that [main] goes on to use; and it has logged nothing. *)
Theorem successful_startup_effects w fl es c :
  startup w fl = (es, Continue c) ->
  es =
    [ReadFile (selectedTokenFile fl)] ++
    (if nonempty (certFile fl) && nonempty (keyFile fl)
     then LoadX509KeyPair (certFile fl) (keyFile fl) ::
          (if nonempty (caCertFile fl) then [ReadFile (caCertFile fl)] else [])
     else []) ++
    [ReadFile (githubTokenFile fl)] ++
    (if nonempty (config.Endpoint (config.PushGateway_ (configAgent_Config w)))
     then [Go (PushMetrics "jenkins-operator"
                 (config.Endpoint (config.PushGateway_ (configAgent_Config w)))
                 (config.Interval (config.PushGateway_ (configAgent_Config w))))]
     else []) ++
    [Go (serve (jc c)); Go (gather c)] /\
  existsb isLog es = false.
Proof.
  revert es c. unfold selectedTokenFile.
  startup_cases; intros es c H; inversion H; subst; simpl; split; reflexivity.
Qed.

Lemma successful_startup_effects_witness :
  exists es c,
    startup exampleWorld tlsFlags = (es, Continue c) /\
    es = [ReadFile "/etc/jenkins/token";
          LoadX509KeyPair "/etc/tls/cert.pem" "/etc/tls/key.pem";
          ReadFile "/etc/tls/ca.pem"; ReadFile "/etc/github/oauth";
          Go (serve (jc c)); Go (gather c)].
Proof.
  do 2 eexists. split; [reflexivity|].
  exact (proj1 (successful_startup_effects exampleWorld tlsFlags _ _ eq_refl)).
Defined.

(** X3. A start-up that reaches its loops has configured exactly one
    authentication scheme: basic auth when [--jenkins-token-file] is set,
    and then no bearer token; a bearer token when it is not, and then
    [--jenkins-bearer-token-file] is set and there is no basic auth. *)
Theorem exactly_one_auth_scheme w fl es c :
  startup w fl = (es, Continue c) ->
  (jenkins.Basic (jenkins.authConfig (jc c)) <> None <->
   jenkinsTokenFile fl <> "") /\
  (jenkins.BearerToken (jenkins.authConfig (jc c)) <> None <->
   jenkinsTokenFile fl = "") /\
  (jenkinsTokenFile fl = "" -> jenkinsBearerTokenFile fl <> "") /\
  (jenkins.Basic (jenkins.authConfig (jc c)) = None <->
   jenkins.BearerToken (jenkins.authConfig (jc c)) <> None).
Proof.
  revert es c.
  startup_cases; intros es c H; inversion H; subst; clear H; simpl;
    repeat match goal with
           | H : nonempty _ = true |- _ => apply nonempty_true in H
           | H : nonempty _ = false |- _ => apply nonempty_false in H
           end.
  all: repeat split; intros; try congruence; try discriminate; auto.
Qed.

Lemma exactly_one_auth_scheme_witness :
  exists es c,
    startup exampleWorld
      (setBearerTokenFile "/etc/jenkins/bearer" defaultFlags) = (es, Continue c) /\
    jenkins.BearerToken (jenkins.authConfig (jc c)) <> None /\
    jenkins.Basic (jenkins.authConfig (jc c)) = None.
Proof.
  do 2 eexists. split; [reflexivity|].
  pose proof (exactly_one_auth_scheme exampleWorld
                (setBearerTokenFile "/etc/jenkins/bearer" defaultFlags)
                _ _ eq_refl) as [_ [H2 [_ H4]]].
  split; [apply H2; reflexivity|]. apply H4. apply H2. reflexivity.
Defined.

(** X4. A start-up that reaches its loops has passed the flags on as they
    are: the Jenkins client has the URL of [--jenkins-url], the controller
    the selector of [--label-selector] and a kube client for the prow-job
    namespace of the configuration, and the GitHub client has the endpoint
    of [--github-endpoint] (the parsed URL is not used) and is the dry-run
    client exactly when [--dry-run] is set. *)
Theorem flags_reach_the_clients w fl es c :
  startup w fl = (es, Continue c) ->
  jenkins.url (jc c) = jenkinsURL fl /\
  labelSelector c = selector fl /\
  kube.namespace (kc c) = config.ProwJobNamespace (configAgent_Config w) /\
  github.endpoint (ghc c) = githubEndpoint fl /\
  github.dry (ghc c) = dryRun fl.
Proof.
  revert es c.
  startup_cases; intros es c H; inversion H; subst; simpl;
    repeat split; congruence.
Qed.

Lemma flags_reach_the_clients_witness :
  exists es c,
    startup exampleWorld exampleFlags = (es, Continue c) /\
    github.dry (ghc c) = true /\
    github.endpoint (ghc c) = "https://api.github.com".
Proof.
  do 2 eexists. split; [reflexivity|].
  pose proof (flags_reach_the_clients exampleWorld exampleFlags _ _ eq_refl)
    as [_ [_ [_ [H4 H5]]]].
  split; [exact H5 | exact H4].
Defined.

(** X5. When the selector parses, the config agent starts and the kube
    client is made, a selected token file that cannot be read ends the
    process with status 1 right after the failed read: the error of the
    read is logged at fatal level, with the message of the scheme (basic or
    bearer), and nothing else is read or started. *)
Theorem unreadable_token_is_fatal w fl err :
  labels_Parse w (selector fl) = None ->
  configAgent_Start w (configPath fl) = None ->
  kube_NewClientInCluster w (config.ProwJobNamespace (configAgent_Config w)) = None ->
  selectedTokenFile fl <> "" ->
  ioutil_ReadFile w (selectedTokenFile fl) = inl err ->
  startup w fl =
    ([ReadFile (selectedTokenFile fl);
      Log (entryErr FatalLevel err
             (if nonempty (jenkinsTokenFile fl)
              then "Could not read token file."
              else "Could not read bearer token file."))],
     Exit 1).
Proof.
  unfold selectedTokenFile. intros H1 H2 H3 Hsel Hread.
  unfold startup, loadToken, ReadFile_, Fatal, emit, ret, bind.
  rewrite H1, H2, H3. simpl.
  destruct (nonempty (jenkinsTokenFile fl)) eqn:Hb.
  - rewrite Hread. reflexivity.
  - apply nonempty_true in Hsel. rewrite Hsel, Hread. reflexivity.
Qed.

Lemma unreadable_token_is_fatal_witness :
  startup exampleWorld missingTokenFlags =
    ([ReadFile "/etc/jenkins/missing";
      Log (entryErr FatalLevel "no such file or directory"
             "Could not read token file.")],
     Exit 1).
Proof.
  exact (unreadable_token_is_fatal exampleWorld missingTokenFlags
           "no such file or directory" eq_refl eq_refl eq_refl
           ltac:(discriminate) eq_refl).
Defined.

(** X6. [loadCerts] never ends the process: it returns.  When the key pair
    does not load it returns that error without reading the CA file.  It
    returns a configuration in all other cases but one, a CA file that is
    named and cannot be read; what the CA file holds makes no difference.
    A configuration it returns has the one certificate of the key pair and
    its name table built, and has root CAs exactly when a CA file is
    named. *)
Theorem loadCerts_returns w cert key ca :
  exists r,
    outcome (loadCerts w cert key ca) = Continue r /\
    (forall e, tls_LoadX509KeyPair w cert key = Some e ->
       r = inl e /\ effects (loadCerts w cert key ca) = [LoadX509KeyPair cert key]) /\
    (tls_LoadX509KeyPair w cert key = None ->
       ((exists cfg, r = inr cfg) <->
        (ca = "" \/ exists pem, ioutil_ReadFile w ca = inr pem))) /\
    (forall cfg, r = inr cfg ->
       tls.Certificates cfg = [{| tls.certPEM := cert; tls.keyPEM := key |}] /\
       tls.NameToCertificateBuilt cfg = true /\
       (tls.RootCAs cfg = None <-> ca = "")).
Proof.
  unfold loadCerts, ReadFile_, emit, ret, bind, outcome, effects. simpl.
  destruct (tls_LoadX509KeyPair w cert key) as [e|] eqn:Hk; simpl.
  - eexists. split; [reflexivity|]. split; [|split].
    + intros e' He'. inversion He'; subst. split; reflexivity.
    + discriminate.
    + intros cfg Hc. discriminate Hc.
  - destruct (nonempty ca) eqn:Hca; simpl.
    + apply nonempty_true in Hca.
      destruct (ioutil_ReadFile w ca) as [e|pem] eqn:Hr; simpl;
        (eexists; split; [reflexivity|]); (split; [discriminate|]); split.
      * intros _. split.
        { intros [cfg Hc]. discriminate Hc. }
        { intros [Hc|[pem Hp]]; [congruence | discriminate Hp]. }
      * intros cfg Hc. discriminate Hc.
      * intros _. split; [intros _; right; eexists; reflexivity|].
        intros _. eexists. reflexivity.
      * intros cfg Hc. inversion Hc; subst; simpl.
        split; [reflexivity|]. split; [reflexivity|].
        split; [discriminate | congruence].
    + apply nonempty_false in Hca.
      eexists. split; [reflexivity|]. split; [discriminate|]. split.
      * intros _. split; [intros _; left; exact Hca|].
        intros _. eexists. reflexivity.
      * intros cfg Hc. inversion Hc; subst; simpl.
        split; [reflexivity|]. split; [reflexivity|].
        split; intros _; reflexivity.
Qed.

Lemma loadCerts_returns_witness :
  exists cfg,
    outcome (loadCerts exampleWorld "/etc/tls/cert.pem" "/etc/tls/key.pem" "") =
      Continue (inr cfg) /\
    tls.RootCAs cfg = None.
Proof.
  destruct (loadCerts_returns exampleWorld "/etc/tls/cert.pem" "/etc/tls/key.pem" "")
    as [r [Hr [_ [_ Hc]]]].
  vm_compute in Hr. injection Hr as <-.
  eexists. split; [reflexivity|].
  apply (proj2 (proj2 (Hc _ eq_refl))). reflexivity.
Defined.

Lemma isSpace2_not_1 b1 b2 : isSpace2 b1 b2 = true -> isSpace1 b1 = false.
Proof.
  intros H. destruct b1; first [reflexivity | cbv in H; discriminate H].
Qed.

Lemma isSpace3_not_1 b1 b2 b3 :
  isSpace3 b1 b2 b3 = true -> isSpace1 b1 = false /\ isSpace2 b1 b2 = false.
Proof.
  intros H.
  destruct b1; first [split; reflexivity | cbv in H; discriminate H].
Qed.

(** A slice of white-space runes only is trimmed to nothing. *)
Lemma TrimSpace_Spaces raw : Spaces raw -> bytes.TrimSpace raw = [].
Proof.
  intros H. unfold bytes.TrimSpace.
  assert (Hl : TrimLeftSpace raw = []).
  { unfold TrimLeftSpace. induction H; simpl.
    - reflexivity.
    - rewrite H. exact IHRunes.
    - rewrite (isSpace2_not_1 _ _ H), H. exact IHRunes.
    - destruct (isSpace3_not_1 _ _ _ H) as [H1 H2].
      rewrite H1, H2, H. exact IHRunes. }
  rewrite Hl. reflexivity.
Qed.

(** X7. A token file that holds white space only (or nothing) is accepted:
    [loadToken] returns the empty token and no error, and a start-up that
    reaches its loops with such a basic token file has configured basic
    auth with the empty token. *)
Theorem blank_token_is_accepted w file raw :
  ioutil_ReadFile w file = inr raw ->
  Spaces raw ->
  loadToken w file = ([ReadFile file], Continue (inr "")) /\
  forall fl es c,
    jenkinsTokenFile fl = file -> file <> "" ->
    startup w fl = (es, Continue c) ->
    jenkins.Basic (jenkins.authConfig (jc c)) =
      Some {| jenkins.User := jenkinsUserName fl; jenkins.Token := "" |}.
Proof.
  intros Hr Hs. pose proof (TrimSpace_Spaces raw Hs) as Ht. split.
  - unfold loadToken, ReadFile_, emit, ret, bind. simpl.
    rewrite Hr, Ht. reflexivity.
  - intros fl es c Hf Hne. subst file. apply nonempty_true in Hne.
    revert es c.
    startup_cases; intros es c H; inversion H; subst; simpl; try congruence.
    all: assert (He : raw = l) by congruence; subst l; rewrite Ht; reflexivity.
Qed.

Lemma blank_token_is_accepted_witness :
  exists es c,
    startup blankTokenWorld exampleFlags = (es, Continue c) /\
    jenkins.Basic (jenkins.authConfig (jc c)) =
      Some {| jenkins.User := "jenkins-trigger"; jenkins.Token := "" |}.
Proof.
  do 2 eexists. split; [reflexivity|].
  refine (proj2 (blank_token_is_accepted blankTokenWorld "/etc/jenkins/token"
                   [x20; x0a] eq_refl _) exampleFlags _ _ eq_refl _ eq_refl).
  - apply Runes_1; [reflexivity|]. apply Runes_1; [reflexivity|]. apply Runes_nil.
  - discriminate.
Defined.

(** X8. Start-up reaches its loops exactly when: the selector parses, the
    config agent starts, the kube client is made, a token file is selected
    and can be read, the key pair loads and a named CA file can be read
    whenever both [--cert-file] and [--key-file] are set, the GitHub token
    file can be read, and the GitHub endpoint parses. *)
Theorem startup_succeeds_iff w fl :
  (exists es c, startup w fl = (es, Continue c)) <->
  labels_Parse w (selector fl) = None /\
  configAgent_Start w (configPath fl) = None /\
  kube_NewClientInCluster w (config.ProwJobNamespace (configAgent_Config w)) = None /\
  selectedTokenFile fl <> "" /\
  (exists raw, ioutil_ReadFile w (selectedTokenFile fl) = inr raw) /\
  (certFile fl <> "" -> keyFile fl <> "" ->
   tls_LoadX509KeyPair w (certFile fl) (keyFile fl) = None /\
   (caCertFile fl <> "" -> exists pem, ioutil_ReadFile w (caCertFile fl) = inr pem)) /\
  (exists raw, ioutil_ReadFile w (githubTokenFile fl) = inr raw) /\
  url_Parse w (githubEndpoint fl) = None.
Proof.
  unfold selectedTokenFile. split.
  - intros [es [c H]]. revert es c H.
    startup_cases; intros es c H; inversion H; subst; clear H;
      repeat match goal with
             | H : (_ && _)%bool = true |- _ =>
                 apply andb_true_iff in H; destruct H
             | H : (_ && _)%bool = false |- _ =>
                 apply andb_false_iff in H; destruct H
             | H : nonempty _ = true |- _ => apply nonempty_true in H
             | H : nonempty _ = false |- _ => apply nonempty_false in H
             end.
    all: repeat match goal with
                | |- _ /\ _ => split
                | |- exists _, inr _ = inr _ => eexists; reflexivity
                | |- _ = _ => reflexivity
                | |- _ <> _ => assumption
                | |- _ -> _ => intro
                end; try congruence.
    all: try (eexists; first [reflexivity | eassumption]).
  - intros (H1 & H2 & H3 & Hsel & [raw Hraw] & Htls & [gh Hgh] & Hurl).
    apply nonempty_true in Hsel.
    unfold startup, loadToken, loadCerts, ReadFile_, Fatal, emit, ret, bind.
    rewrite H1, H2, H3. simpl.
    revert Hsel Hraw.
    destruct (nonempty (jenkinsTokenFile fl)); intros Hsel Hraw;
      rewrite ?Hsel, Hraw; simpl.
    all: destruct (nonempty (certFile fl) && nonempty (keyFile fl))%bool eqn:Hck;
      simpl.
    all: try (apply andb_true_iff in Hck; destruct Hck as [Hc Hk];
              apply nonempty_true in Hc; apply nonempty_true in Hk;
              destruct (Htls Hc Hk) as [Hpair Hca]; rewrite Hpair; simpl;
              destruct (nonempty (caCertFile fl)) eqn:Hn; simpl;
              [ apply nonempty_true in Hn; destruct (Hca Hn) as [pem Hpem];
                rewrite Hpem; simpl
              | ]).
    all: rewrite Hgh; simpl; rewrite Hurl; simpl.
    all: destruct (nonempty (config.Endpoint (config.PushGateway_ (configAgent_Config w))));
      simpl; do 2 eexists; reflexivity.
Qed.

Lemma startup_succeeds_iff_witness :
  exists es c, startup exampleWorld exampleFlags = (es, Continue c).
Proof.
  apply (proj2 (startup_succeeds_iff exampleWorld exampleFlags)).
  split; [reflexivity|]. split; [reflexivity|]. split; [reflexivity|].
  split; [discriminate|]. split; [eexists; reflexivity|].
  split; [intros H; exfalso; apply H; reflexivity|].
  split; [eexists; reflexivity | reflexivity].
Defined.

(** * Further properties of the steady state *)

Lemma startup_effects_idle w fl es c :
  startup w fl = (es, Continue c) ->
  (forall l, count (isCallOf l) es = 0%nat) /\
  count isObserve es = 0%nat /\
  count isMetricsSynced es = 0%nat /\
  forallb nonNegative es = true.
Proof.
  revert es c.
  startup_cases; intros es c H; inversion H; subst;
    (split; [intros [|]; reflexivity|]); repeat split.
Qed.

(** The calls of a loop and the ends of its iterations, step by step. *)
Lemma step_calls_returns a p q :
  step a p = Some q ->
  (count (isCallOf Reconcile) (trace p) =
     count isObserve (trace p) + inFlight Reconcile p)%nat ->
  (count (isCallOf Gather) (trace p) =
     count isMetricsSynced (trace p) + inFlight Gather p)%nat ->
  (count (isCallOf Reconcile) (trace q) =
     count isObserve (trace q) + inFlight Reconcile q)%nat /\
  (count (isCallOf Gather) (trace q) =
     count isMetricsSynced (trace q) + inFlight Gather q)%nat.
Proof.
  intros H. unfold inFlight. step_cases H;
    repeat match goal with l : LoopId |- _ => destruct l end;
    simpl in *; rewrite ?notify_phase;
    unfold afterSync, afterSyncMetrics, handleRequest, pushOnce, emitP; simpl;
    rewrite ?count_app;
    repeat match goal with
           | H : phase _ = _ |- _ => rewrite H; clear H
           end;
    try match goal with
        | |- context [match ?e with Some _ => _ | None => _ end] => destruct e
        end;
    unfold count; simpl; intros; lia.
Qed.

Lemma in_call_no_tick p l start :
  phase (loopOf l p) = InCall start -> step (SelectTick l) p = None.
Proof.
  intros Hph. unfold step. destruct (exited p); [reflexivity|].
  rewrite Hph. reflexivity.
Qed.

(** X9. The iterations of a loop do not overlap.  In every state the
    process reaches after start-up, the calls of [c.Sync()] made so far are
    as many as the observations on the resync metric, plus the one in
    flight if there is one; the calls of [c.SyncMetrics()] are as many as
    the "Metrics synced" entries, plus the one in flight; and a loop that is
    inside its call cannot take a tick. *)
Theorem iterations_are_sequential w fl now c acts q :
  outcome (startup w fl) = Continue c ->
  run acts (boot w fl now) = Some q ->
  (count (isCallOf Reconcile) (trace q) =
     count isObserve (trace q) + inFlight Reconcile q)%nat /\
  (count (isCallOf Gather) (trace q) =
     count isMetricsSynced (trace q) + inFlight Gather q)%nat /\
  (forall l, inFlight l q = 1%nat -> step (SelectTick l) q = None).
Proof.
  intros Hc Hr.
  assert (Hinv :
    (count (isCallOf Reconcile) (trace q) =
       count isObserve (trace q) + inFlight Reconcile q)%nat /\
    (count (isCallOf Gather) (trace q) =
       count isMetricsSynced (trace q) + inFlight Gather q)%nat).
  { assert (H0 :
      (count (isCallOf Reconcile) (trace (boot w fl now)) =
         count isObserve (trace (boot w fl now)) + inFlight Reconcile (boot w fl now))%nat /\
      (count (isCallOf Gather) (trace (boot w fl now)) =
         count isMetricsSynced (trace (boot w fl now)) + inFlight Gather (boot w fl now))%nat).
    { rewrite (boot_live w fl now c Hc). unfold inFlight. simpl.
      unfold outcome, effects in *.
      destruct (startup w fl) as [es o] eqn:Hs. simpl in *. subst o.
      destruct (startup_effects_idle w fl es c Hs) as [H1 [H2 [H3 _]]].
      rewrite (H1 Reconcile), (H1 Gather), H2, H3. split; reflexivity. }
    revert Hr H0. generalize (boot w fl now) as p.
    induction acts as [|a rest IH]; simpl; intros p Hr [H1 H2].
    - inversion Hr; subst. split; assumption.
    - destruct (step a p) as [p1|] eqn:Hs; [|discriminate].
      exact (IH p1 Hr (step_calls_returns a p p1 Hs H1 H2)). }
  destruct Hinv as [H1 H2]. split; [exact H1|]. split; [exact H2|].
  intros l Hl. unfold inFlight in Hl.
  destruct (phase (loopOf l q)) eqn:Hph; try discriminate.
  exact (in_call_no_tick q l _ Hph).
Qed.

Lemma iterations_are_sequential_witness :
  count (isCallOf Reconcile) (trace inSync) = 1%nat /\
  count isObserve (trace inSync) = 0%nat /\
  step (SelectTick Reconcile) inSync = None.
Proof.
  pose proof (iterations_are_sequential exampleWorld exampleFlags 0 _
                (firstTick ++ [SelectTick Reconcile; Elapse (5 * time.Second)])
                inSync eq_refl eq_refl) as [_ [_ H3]].
  split; [reflexivity|]. split; [reflexivity|].
  exact (H3 Reconcile eq_refl).
Defined.

(** A tick that fires adds at most one to what the loop has called or has
    buffered; nothing else adds to it. *)
Lemma step_ticks a p q l :
  step a p = Some q ->
  (count (isCallOf l) (trace q) + pending l q <=
   count (isCallOf l) (trace p) + pending l p +
   if isTimerFires l a then 1 else 0)%nat.
Proof.
  intros H. unfold pending. step_cases H;
    repeat match goal with l : LoopId |- _ => destruct l end;
    simpl in *; rewrite ?notify_tick;
    unfold afterSync, afterSyncMetrics, handleRequest, pushOnce, emitP; simpl;
    rewrite ?count_app;
    repeat match goal with
           | H : buffered _ = _ |- _ => rewrite H; clear H
           end;
    try match goal with
        | |- context [match ?e with Some _ => _ | None => _ end] => destruct e
        end;
    repeat match goal with
           | |- context [if ?b then _ else _] => destruct b
           end;
    unfold count; simpl; lia.
Qed.

(** X10. Ticks are not queued.  In every state the process reaches after
    start-up, the iterations a loop has started, plus the tick it has
    buffered if any, are at most as many as the times its ticker has fired:
    a tick that fires while one is buffered is lost, and a slow iteration is
    followed by one iteration at most that was due during it. *)
Theorem ticks_are_not_queued w fl now c acts q l :
  outcome (startup w fl) = Continue c ->
  run acts (boot w fl now) = Some q ->
  (count (isCallOf l) (trace q) + pending l q <=
   List.length (filter (isTimerFires l) acts))%nat.
Proof.
  intros Hc Hr.
  assert (H0 : (count (isCallOf l) (trace (boot w fl now)) +
                pending l (boot w fl now) = 0)%nat).
  { rewrite (boot_live w fl now c Hc). unfold pending.
    unfold outcome, effects in *.
    destruct (startup w fl) as [es o] eqn:Hs. simpl in *. subst o.
    destruct (startup_effects_idle w fl es c Hs) as [H1 _].
    rewrite (H1 l). destruct l; reflexivity. }
  assert (Hgen : forall acts p q,
            run acts p = Some q ->
            (count (isCallOf l) (trace q) + pending l q <=
             count (isCallOf l) (trace p) + pending l p +
             List.length (filter (isTimerFires l) acts))%nat).
  { clear. induction acts as [|a rest IH]; simpl; intros p q Hr.
    - inversion Hr; subst. lia.
    - destruct (step a p) as [p1|] eqn:Hs; [|discriminate].
      pose proof (step_ticks a p p1 l Hs) as H1.
      pose proof (IH p1 q Hr) as H2.
      destruct (isTimerFires l a); simpl; lia. }
  pose proof (Hgen acts _ q Hr) as H. lia.
Qed.

Lemma ticks_are_not_queued_witness :
  (count (isCallOf Reconcile) (trace inSync) + pending Reconcile inSync <= 1)%nat.
Proof.
  exact (ticks_are_not_queued exampleWorld exampleFlags 0 _
           (firstTick ++ [SelectTick Reconcile; Elapse (5 * time.Second)])
           inSync Reconcile eq_refl eq_refl).
Defined.

Lemma step_started a p q l :
  step a p = Some q -> started (loopOf l p) = true -> started (loopOf l q) = true.
Proof.
  unfold started. intros H Hs. step_cases H;
    repeat match goal with l : LoopId |- _ => destruct l end;
    simpl in *; rewrite ?notify_phase; auto.
Qed.

Lemma step_beforeFirstTick a p q l t0 :
  step a p = Some q -> beforeFirstTick t0 l p -> beforeFirstTick t0 l q.
Proof.
  intros H [Hst [Hcad [Hclk [Hfirst Hlater]]]].
  split; [exact (step_started a p q l H Hst)|].
  split; [exact (step_cadence a p q l t0 H Hcad)|].
  destruct Hcad as [Hper [k [Hk Hnext]]].
  assert (HP : 30 * time.Second = 30000000000) by reflexivity.
  step_cases H;
    repeat match goal with l : LoopId |- _ => destruct l end;
    simpl in *; rewrite ?notify_tick;
    unfold afterSync, afterSyncMetrics, handleRequest, pushOnce, emitP; simpl;
    rewrite ?count_app;
    repeat match goal with
           | H : (_ && _)%bool = true |- _ => apply andb_true_iff in H; destruct H
           | H : (_ <=? _) = true |- _ => apply Z.leb_le in H
           | H : (_ =? _) = true |- _ => apply Z.eqb_eq in H
           | H : notFiringBefore _ _ = true |- _ =>
               unfold notFiringBefore in H; rewrite ?Hst in H; simpl in H
           end;
    try match goal with
        | |- context [match ?e with Some _ => _ | None => _ end] => destruct e
        end;
    unfold count in *; simpl.
  all: try (split; [lia|]; split; [intros Hn; destruct (Hfirst Hn); split; [assumption | lia] | intros Hn; specialize (Hlater Hn); lia]).
  all: split; [lia|]; split.
  all: try (intros Hn; exfalso; lia).
  all: try (intros _; lia).
  all: try (intros Hn; destruct (Hfirst Hn) as [Hb _]; congruence).
  all: try (intros Hn; exact (Hlater Hn)).
Qed.

(** X11. Nothing is called before the first tick.  In every state the
    process reaches after start-up at time [now], the clock has not gone
    back behind [now]; and while it is less than thirty seconds after
    [now], neither [c.Sync()] nor [c.SyncMetrics()] has been called. *)
Theorem no_call_before_first_tick w fl now c acts q :
  outcome (startup w fl) = Continue c ->
  run acts (boot w fl now) = Some q ->
  now <= clock q /\
  (clock q < now + 30 * time.Second ->
   count (isCallOf Reconcile) (trace q) = 0%nat /\
   count (isCallOf Gather) (trace q) = 0%nat).
Proof.
  intros Hc Hr.
  assert (H0 : forall l, beforeFirstTick now l (boot w fl now)).
  { intros l. rewrite (boot_live w fl now c Hc).
    unfold outcome, effects in *.
    destruct (startup w fl) as [es o] eqn:Hs. simpl in *. subst o.
    destruct (startup_effects_idle w fl es c Hs) as [H1 _].
    unfold beforeFirstTick, cadence.
    destruct l; simpl; (split; [reflexivity|]);
      (split; [split; [reflexivity | exists 1; split; [lia | reflexivity]]|]);
      (split; [unfold time.Second, time.Millisecond, time.Microsecond,
                 time.Nanosecond; lia|]);
      (split; [intros _; split; [reflexivity | apply H1] | intros Hn; congruence]). }
  assert (Hgen : forall l acts p q,
            run acts p = Some q -> beforeFirstTick now l p -> beforeFirstTick now l q).
  { clear. intros l. induction acts as [|a rest IH]; simpl; intros p q Hr Hb.
    - inversion Hr; subst. exact Hb.
    - destruct (step a p) as [p1|] eqn:Hs; [|discriminate].
      exact (IH p1 q Hr (step_beforeFirstTick a p p1 l now Hs Hb)). }
  pose proof (Hgen Reconcile acts _ q Hr (H0 Reconcile)) as [_ [_ [Hclk [Hf1 Hl1]]]].
  pose proof (Hgen Gather acts _ q Hr (H0 Gather)) as [_ [_ [_ [Hf2 Hl2]]]].
  split; [lia|]. intros Hlt. split.
  - apply Hf1. destruct (Z.eq_dec (next_fire (tick (loopOf Reconcile q)))
                           (now + 30 * time.Second)) as [He|Hne]; [exact He|].
    specialize (Hl1 Hne). lia.
  - apply Hf2. destruct (Z.eq_dec (next_fire (tick (loopOf Gather q)))
                           (now + 30 * time.Second)) as [He|Hne]; [exact He|].
    specialize (Hl2 Hne). lia.
Qed.

Lemma no_call_before_first_tick_witness :
  count (isCallOf Reconcile) (trace (after [Elapse (29 * time.Second); Deliver SIGINT] p0))
    = 0%nat.
Proof.
  refine (proj1 (proj2 (no_call_before_first_tick exampleWorld exampleFlags 0 _
                          [Elapse (29 * time.Second); Deliver SIGINT]
                          (after [Elapse (29 * time.Second); Deliver SIGINT] p0)
                          eq_refl eq_refl) _)).
  vm_compute. reflexivity.
Defined.


(** The call of an iteration started no later than now, and no duration
    measured so far is negative. *)
Lemma step_nonNegative a p q :
  step a p = Some q ->
  (forall l start, phase (loopOf l p) = InCall start -> start <= clock p) ->
  forallb nonNegative (trace p) = true ->
  (forall l start, phase (loopOf l q) = InCall start -> start <= clock q) /\
  forallb nonNegative (trace q) = true.
Proof.
  intros H Hin Htr.
  pose proof (Hin Reconcile) as HinR. pose proof (Hin Gather) as HinG.
  simpl in HinR, HinG.
  step_cases H;
    repeat match goal with l : LoopId |- _ => destruct l end;
    simpl in *;
    unfold afterSync, afterSyncMetrics, handleRequest, pushOnce, emitP; simpl;
    rewrite ?forallb_app, ?Htr; simpl;
    repeat match goal with
           | H : (_ && _)%bool = true |- _ => apply andb_true_iff in H; destruct H
           | H : (_ <=? _) = true |- _ => apply Z.leb_le in H
           end;
    try match goal with
        | |- context [match ?e with Some _ => _ | None => _ end] => destruct e
        end; simpl.
  all: split;
    [ intros [|] st0; simpl; rewrite ?notify_phase; intros Hph;
      try (specialize (HinR _ Hph)); try (specialize (HinG _ Hph));
      try (inversion Hph; subst); try lia; try congruence
    | try reflexivity ].
  all: match goal with
       | H : forall s, InCall ?st = InCall s -> _ |- _ =>
           pose proof (H _ eq_refl) as Hle
       end;
    match goal with
    | |- context [0 <=? ?d] =>
        replace (0 <=? d) with true by (symmetry; apply Z.leb_le; lia)
    end; reflexivity.
Qed.

(** X12. No duration is negative.  In every state the process reaches
    after start-up, each duration observed on the resync metric and each
    duration written to the log ("duration" of [main], "metrics-duration"
    of [gather]) is zero or more. *)
Theorem durations_are_not_negative w fl now c acts q :
  outcome (startup w fl) = Continue c ->
  run acts (boot w fl now) = Some q ->
  forallb nonNegative (trace q) = true /\
  (forall d, In (Observe d) (trace q) -> 0 <= d).
Proof.
  intros Hc Hr.
  assert (H0 : (forall l start, phase (loopOf l (boot w fl now)) = InCall start ->
                  start <= clock (boot w fl now)) /\
               forallb nonNegative (trace (boot w fl now)) = true).
  { rewrite (boot_live w fl now c Hc).
    unfold outcome, effects in *.
    destruct (startup w fl) as [es o] eqn:Hs. simpl in *. subst o.
    destruct (startup_effects_idle w fl es c Hs) as [_ [_ [_ H4]]].
    split; [intros [|] start; simpl; discriminate | exact H4]. }
  assert (Hgen : forall acts p q,
            run acts p = Some q ->
            (forall l start, phase (loopOf l p) = InCall start -> start <= clock p) /\
            forallb nonNegative (trace p) = true ->
            (forall l start, phase (loopOf l q) = InCall start -> start <= clock q) /\
            forallb nonNegative (trace q) = true).
  { clear. induction acts as [|a rest IH]; simpl; intros p q Hr [H1 H2].
    - inversion Hr; subst. split; assumption.
    - destruct (step a p) as [p1|] eqn:Hs; [|discriminate].
      exact (IH p1 q Hr (step_nonNegative a p p1 Hs H1 H2)). }
  destruct (Hgen acts _ q Hr H0) as [_ Hall].
  split; [exact Hall|].
  intros d Hin. rewrite forallb_forall in Hall.
  specialize (Hall _ Hin). simpl in Hall. apply Z.leb_le. exact Hall.
Qed.

Lemma durations_are_not_negative_witness :
  forallb nonNegative (trace (after threeTicks p0)) = true.
Proof.
  refine (proj1 (durations_are_not_negative exampleWorld exampleFlags 0 _
                   threeTicks (after threeTicks p0) _ _)).
  - vm_compute. reflexivity.
  - vm_compute. reflexivity.
Defined.

Lemma notify_idempotent lp : notify (notify lp) = notify lp.
Proof.
  unfold notify. destruct (started lp) eqn:Hs; [|rewrite Hs; reflexivity].
  unfold started in *. simpl. rewrite Hs. reflexivity.
Qed.

(** X13. The signal channels hold one signal: in a running process a
    second signal, of either kind, changes nothing; the process after two
    signals is the process after the first. *)
Theorem second_signal_is_dropped p s s' :
  exited p = None ->
  run [Deliver s; Deliver s'] p = run [Deliver s] p /\
  exists q, run [Deliver s] p = Some q /\
            mainLoop q = notify (mainLoop p) /\
            gatherLoop q = notify (gatherLoop p) /\
            trace q = trace p.
Proof.
  intros He. simpl. rewrite (step_Deliver p s He). split.
  - rewrite step_Deliver by exact He. simpl. rewrite !notify_idempotent.
    reflexivity.
  - eexists. split; [reflexivity|]. simpl. repeat split.
Qed.

Lemma second_signal_is_dropped_witness :
  run [Deliver SIGTERM; Deliver SIGINT] p0 = run [Deliver SIGTERM] p0.
Proof.
  exact (proj1 (second_signal_is_dropped p0 SIGTERM SIGINT eq_refl)).
Defined.


Lemma step_log_levels a p q :
  step a p = Some q ->
  count (isLevel ErrorLevel) (trace q) =
    (count (isLevel ErrorLevel) (trace p) + if isFailedSync a then 1 else 0)%nat /\
  count (isLevel FatalLevel) (trace q) =
    (count (isLevel FatalLevel) (trace p) +
     if isListenAndServeReturns a then 1 else 0)%nat.
Proof.
  intros H. step_cases H;
    repeat match goal with l : LoopId |- _ => destruct l end;
    simpl;
    unfold afterSync, afterSyncMetrics, handleRequest, pushOnce, emitP; simpl;
    rewrite ?count_app;
    try match goal with
        | |- context [match ?e with Some _ => _ | None => _ end] => destruct e
        end;
    unfold count; simpl; split; lia.
Qed.

(** X14. Along every run, each [c.Sync()] that returns an error adds one
    entry at error level to the log and nothing else does; and only the
    return of [http.ListenAndServe] adds an entry at fatal level. *)
Theorem failures_are_logged_once acts : forall p q,
  run acts p = Some q ->
  count (isLevel ErrorLevel) (trace q) =
    (count (isLevel ErrorLevel) (trace p) +
     List.length (filter isFailedSync acts))%nat /\
  count (isLevel FatalLevel) (trace q) =
    (count (isLevel FatalLevel) (trace p) +
     List.length (filter isListenAndServeReturns acts))%nat.
Proof.
  induction acts as [|a rest IH]; simpl; intros p q Hr.
  - inversion Hr; subst. split; lia.
  - destruct (step a p) as [p1|] eqn:Hs; [|discriminate].
    destruct (step_log_levels a p p1 Hs) as [H1 H2].
    destruct (IH p1 q Hr) as [H3 H4].
    destruct (isFailedSync a), (isListenAndServeReturns a); simpl; split; lia.
Qed.

Lemma failures_are_logged_once_witness :
  count (isLevel ErrorLevel) (trace (after threeTicks p0)) = 2%nat /\
  count (isLevel FatalLevel) (trace (after threeTicks p0)) = 0%nat.
Proof.
  assert (Hr : run threeTicks p0 = Some (after threeTicks p0))
    by (vm_compute; reflexivity).
  destruct (failures_are_logged_once threeTicks p0 _ Hr) as [H1 H2].
  split; [rewrite H1 | rewrite H2]; vm_compute; reflexivity.
Defined.


